(** * go-socks5: the connection supervisor of [socks5.go]

    A shallow embedding of [New], [Serve] and [ServeConn] and of the state
    they act on, with the properties of the admission pool, the live
    counter, the panic boundary and the configuration defaults. *)

From Stdlib Require Import ZArith List Bool Lia.
From stdpp Require Import base strings gmap list.

Local Open Scope Z_scope.

(** ** Values shared by the whole file *)

(** A value handed to [panic]: a run-time error raised by the Go runtime or
    a value some callee panicked with. *)
Inductive panic_value :=
| RuntimeError (msg : string)
| PanicValue (msg : string).

(** A Go call either comes back with its results or unwinds with a panic. *)
Inductive call (A : Type) :=
| Back (a : A)
| Panics (v : panic_value).
Arguments Back {A} a.
Arguments Panics {A} v.

(** Go error values. [unrecognizedAddrType] is the sentinel declared in
    [request.go], which [ServeConn] compares by identity; [fmt_Errorf]
    keeps the format and its arguments instead of the formatted text, so
    a fresh error is never equal to the sentinel. *)
Inductive error :=
| unrecognizedAddrType
| ExternalError (msg : string)
| net_Error (msg : string) (temporary : bool)
| fmt_Errorf (format : string) (args : list fmt_arg)
with fmt_arg :=
| ArgError (e : error)
| ArgBytes (b : list Z)
| ArgPanic (v : panic_value).

(** The Go pair [(value, err)] of a call that follows the convention
    "the value is meaningful only when err is nil". *)
Inductive result (A : Type) :=
| Ok (a : A)
| Err (e : error).
Arguments Ok {A} a.
Arguments Err {A} e.

Definition nilDereference : panic_value :=
  RuntimeError "invalid memory address or nil pointer dereference".

(** [int64] arithmetic wraps around. *)
Definition wrap64 (z : Z) : Z := (z + 2 ^ 63) mod 2 ^ 64 - 2 ^ 63.

(** The range of Go's [int] (64-bit platforms). *)
Definition is_int (z : Z) : Prop := - 2 ^ 63 <= z < 2 ^ 63.

(** ** Channels

    Only the number of queued elements of a channel matters here: [sema]
    carries [struct{}] tokens, and the two notification channels are
    unbuffered. *)
Record chan := { chan_cap : Z; chan_len : Z }.

(** [make(chan T, n)]: the runtime panics on a negative size. *)
Definition make_chan (n : Z) : call chan :=
  if n <? 0 then Panics (RuntimeError "makechan: size out of range")
  else Back {| chan_cap := n; chan_len := 0 |}.

(** ** Config and its collaborators

    The collaborators are declared in other files of the package; they are
    kept as opaque handles, with one constructor for each value that
    [socks5.go] itself builds. *)
Inductive CredentialStore := CredentialStoreImpl (id : nat).
Inductive NameResolver := DNSResolver | CustomResolver (id : nat).
Inductive RuleSet := PermitAll | CustomRules (id : nat).
Inductive AddressRewriter := CustomRewriter (id : nat).
Inductive DialFunc := CustomDial (id : nat).

(** [log.New(os.Stdout, prefix, flag)] or a logger supplied by the caller. *)
Inductive log_Logger :=
| log_New_Stdout (prefix : string) (flag : Z)
| CustomLogger (id : nat).
Definition log_LstdFlags : Z := 3.

Inductive Authenticator :=
| UserPassAuthenticator (Credentials : CredentialStore)
| NoAuthAuthenticator
| CustomAuthenticator (id : nat).

(** Interface values and pointers may be nil: [option]. A slice is a list,
    so that [len(x) == 0] does not tell nil from empty, as in Go. *)
Record Config := {
  AuthMethods : list (option Authenticator);
  Credentials : option CredentialStore;
  Resolver : option NameResolver;
  Rules : option RuleSet;
  Rewriter : option AddressRewriter;
  BindIP : list Z;
  Logger : option log_Logger;
  Dial : option DialFunc;
  ConnLimit : Z;
  IdleTimeout : Z;
  ConnectTimeout : Z
}.

Definition set_AuthMethods (v : list (option Authenticator)) (c : Config) : Config :=
  {| AuthMethods := v; Credentials := Credentials c; Resolver := Resolver c;
     Rules := Rules c; Rewriter := Rewriter c; BindIP := BindIP c;
     Logger := Logger c; Dial := Dial c; ConnLimit := ConnLimit c;
     IdleTimeout := IdleTimeout c; ConnectTimeout := ConnectTimeout c |}.

Definition set_Resolver (v : option NameResolver) (c : Config) : Config :=
  {| AuthMethods := AuthMethods c; Credentials := Credentials c; Resolver := v;
     Rules := Rules c; Rewriter := Rewriter c; BindIP := BindIP c;
     Logger := Logger c; Dial := Dial c; ConnLimit := ConnLimit c;
     IdleTimeout := IdleTimeout c; ConnectTimeout := ConnectTimeout c |}.

Definition set_Rules (v : option RuleSet) (c : Config) : Config :=
  {| AuthMethods := AuthMethods c; Credentials := Credentials c; Resolver := Resolver c;
     Rules := v; Rewriter := Rewriter c; BindIP := BindIP c;
     Logger := Logger c; Dial := Dial c; ConnLimit := ConnLimit c;
     IdleTimeout := IdleTimeout c; ConnectTimeout := ConnectTimeout c |}.

Definition set_Logger (v : option log_Logger) (c : Config) : Config :=
  {| AuthMethods := AuthMethods c; Credentials := Credentials c; Resolver := Resolver c;
     Rules := Rules c; Rewriter := Rewriter c; BindIP := BindIP c;
     Logger := v; Dial := Dial c; ConnLimit := ConnLimit c;
     IdleTimeout := IdleTimeout c; ConnectTimeout := ConnectTimeout c |}.

Definition set_ConnLimit (v : Z) (c : Config) : Config :=
  {| AuthMethods := AuthMethods c; Credentials := Credentials c; Resolver := Resolver c;
     Rules := Rules c; Rewriter := Rewriter c; BindIP := BindIP c;
     Logger := Logger c; Dial := Dial c; ConnLimit := v;
     IdleTimeout := IdleTimeout c; ConnectTimeout := ConnectTimeout c |}.

(** ** Server

    [config] is a pointer: the Config lives in a store of Config objects,
    and the caller of [New] holds the same pointer. *)
Definition loc := positive.

Record Server := {
  config : loc;
  authMethods : gmap Z Authenticator;
  sema : chan;
  ConnCountChan : chan;
  ConnCount : Z;
  FinishedConnChan : chan
}.

Definition set_authMethods (m : gmap Z Authenticator) (s : Server) : Server :=
  {| config := config s; authMethods := m; sema := sema s;
     ConnCountChan := ConnCountChan s; ConnCount := ConnCount s;
     FinishedConnChan := FinishedConnChan s |}.

Definition set_sema (c : chan) (s : Server) : Server :=
  {| config := config s; authMethods := authMethods s; sema := c;
     ConnCountChan := ConnCountChan s; ConnCount := ConnCount s;
     FinishedConnChan := FinishedConnChan s |}.

Definition set_ConnCount (n : Z) (s : Server) : Server :=
  {| config := config s; authMethods := authMethods s; sema := sema s;
     ConnCountChan := ConnCountChan s; ConnCount := n;
     FinishedConnChan := FinishedConnChan s |}.

(** ** New *)
Section New.

(** [GetCode] is a method of the Authenticator interface, implemented in
    another file: the method identifier byte of an authenticator. *)
Variable GetCode : Authenticator -> Z.

(** The four defaulting assignments before [ConnLimit], each on the
    object [conf] points to. *)
Definition default_AuthMethods (c : Config) : Config :=
  match AuthMethods c with
  | [] =>
      match Credentials c with
      | Some creds => set_AuthMethods [Some (UserPassAuthenticator creds)] c
      | None => set_AuthMethods [Some NoAuthAuthenticator] c
      end
  | _ :: _ => c
  end.

Definition default_Resolver (c : Config) : Config :=
  match Resolver c with
  | None => set_Resolver (Some DNSResolver) c
  | Some _ => c
  end.

Definition default_Rules (c : Config) : Config :=
  match Rules c with
  | None => set_Rules (Some PermitAll) c
  | Some _ => c
  end.

Definition default_Logger (c : Config) : Config :=
  match Logger c with
  | None => set_Logger (Some (log_New_Stdout "" log_LstdFlags)) c
  | Some _ => c
  end.

Definition default_ConnLimit (c : Config) : Config :=
  if ConnLimit c =? 0 then set_ConnLimit 50000 c else c.

(** The object [conf] points to after the five defaulting statements. *)
Definition defaults (c : Config) : Config :=
  default_ConnLimit (default_Logger (default_Rules (default_Resolver (default_AuthMethods c)))).

(** [for _, a := range conf.AuthMethods { server.authMethods[a.GetCode()] = a }];
    calling [GetCode] on a nil interface value panics. *)
Fixpoint register_authMethods (l : list (option Authenticator))
    (m : gmap Z Authenticator) : call (gmap Z Authenticator) :=
  match l with
  | [] => Back m
  | None :: _ => Panics nilDereference
  | Some a :: l' => register_authMethods l' (<[GetCode a := a]> m)
  end.

(** [New(conf)]: every assignment goes through the pointer, so it is an
    update of the store at [conf]; the result is the pair
    [(server, error)] of the source, or a panic. *)
Definition New (conf : option loc) (h : gmap loc Config)
    : call (Server * option error) * gmap loc Config :=
  match conf with
  | None => (Panics nilDereference, h)
  | Some p =>
      match h !! p with
      | None => (Panics nilDereference, h)
      | Some _ =>
          let h := alter default_AuthMethods p h in
          let h := alter default_Resolver p h in
          let h := alter default_Rules p h in
          let h := alter default_Logger p h in
          let h := alter default_ConnLimit p h in
          match h !! p with
          | None => (Panics nilDereference, h)
          | Some c =>
              match make_chan (ConnLimit c), make_chan 0, make_chan 0 with
              | Back sema_, Back countChan, Back finishedChan =>
                  let server :=
                    {| config := p;
                       authMethods := ∅;
                       sema := sema_;
                       ConnCountChan := countChan;
                       ConnCount := 0;
                       FinishedConnChan := finishedChan |} in
                  match register_authMethods (AuthMethods c) (authMethods server) with
                  | Panics v => (Panics v, h)
                  | Back m => (Back (set_authMethods m server, None), h)
                  end
              | Panics v, _, _ | _, Panics v, _ | _, _, Panics v => (Panics v, h)
              end
          end
      end
  end.

End New.

(** ** The data a connection handler works with *)

Definition socks5Version : Z := 5.

(** [conn.RemoteAddr()]: a [*net.TCPAddr] or an address of another kind. *)
Inductive net_Addr :=
| TCPAddr (IP : list Z) (Port : Z)
| OtherAddr (network : string) (text : string).

(** A connection handed to the server. Its byte streams belong to the
    environment; the handler holds its identity and its peer address. *)
Record net_Conn := { conn_id : nat; RemoteAddr : net_Addr }.

(** Modelled from the spec: the types [AddrSpec], [AuthContext] and
    [Request] are declared in [request.go] and [auth.go]; only the fields
    the spec's data model lists are kept. *)
Record AddrSpec := { FQDN : string; IP : list Z; Port : Z }.
Record AuthContext := { Method : Z; Payload : list (string * string) }.
Record Request := {
  Command : Z;
  Request_AuthContext : option AuthContext;
  Request_RemoteAddr : option AddrSpec;
  DestAddr : option AddrSpec
}.

Definition set_Request_AuthContext (a : option AuthContext) (r : Request) : Request :=
  {| Command := Command r; Request_AuthContext := a;
     Request_RemoteAddr := Request_RemoteAddr r; DestAddr := DestAddr r |}.

Definition set_Request_RemoteAddr (a : option AddrSpec) (r : Request) : Request :=
  {| Command := Command r; Request_AuthContext := Request_AuthContext r;
     Request_RemoteAddr := a; DestAddr := DestAddr r |}.

(** Modelled from the spec: the reply status codes of [request.go], in the
    order the spec enumerates them. *)
Inductive reply_code :=
| successReply
| serverFailure
| ruleFailure
| networkUnreachable
| hostUnreachable
| connectionRefused
| ttlExpired
| commandNotSupported
| addrTypeNotSupported.

Record FinishedConnInfo := {
  FinishedConnInfo_IP : string;
  FinishedConnInfo_Port : string;
  Duration : Z
}.

(** ** Operations

    [ServeConn] and [Serve] are sequences of operations of two kinds.
    The first kind acts on the state shared by all handlers of one server:
    the slot channel [sema] and the counter [ConnCount]. *)
Inductive sync_op : Type -> Type :=
| sema_TrySend : sync_op bool
    (* select { case s.sema <- struct{}{}: ... default: ... } *)
| sema_Recv : sync_op unit
    (* <-s.sema *)
| atomic_AddInt64 (delta : Z) : sync_op Z
    (* atomic.AddInt64(&s.ConnCount, delta) *)
| atomic_LoadInt64 : sync_op Z.
    (* atomic.LoadInt64(&s.ConnCount), that is s.GetConnCount() *)

(** The second kind is answered by the environment: the transport, the
    logger, the receivers of the notification channels, the clock, the
    shared Config object, and the methods of the package that live in
    other files ([authenticate], [NewRequest], [sendReply],
    [handleRequest]). A call into the transport or into one of these
    methods may panic. The logger is taken not to panic, and so are the
    sends on the notification channels, which this file never closes.
    The methods of other files are taken not to touch [sema] and
    [ConnCount], which only [ServeConn] uses. *)
Inductive ext_op : Type -> Type :=
| ConnCountChan_TrySend (v : Z) : ext_op bool
    (* select { case s.ConnCountChan <- v: default: } *)
| FinishedConnChan_TrySend (info : FinishedConnInfo) : ext_op bool
    (* a non-blocking send on s.FinishedConnChan, the push that the comment
       of GetFinishedConnChan announces *)
| Logger_Printf (format : string) (args : list fmt_arg) : ext_op unit
| conn_Close (conn : net_Conn) : ext_op (call (option error))
| bufConn_Read (conn : net_Conn) (len : nat) : ext_op (call (list Z * option error))
| authenticate (conn : net_Conn) : ext_op (call (result AuthContext))
| NewRequest (conn : net_Conn) : ext_op (call (result Request))
| sendReply (conn : net_Conn) (resp : reply_code) (addr : option AddrSpec)
    : ext_op (call (option error))
| handleRequest (req : Request) (conn : net_Conn) : ext_op (call (option error))
| l_Accept : ext_op (call (result net_Conn))
| time_Now : ext_op Z
| config_ConnectTimeout : ext_op Z
| conn_SetDeadline (conn : net_Conn) (t : Z) : ext_op (call (option error))
| go_ServeConn (conn : net_Conn) : ext_op unit.

(** What an observer records of an executed operation: the operation and
    its answer. *)
Inductive event :=
| EvSemaSend (ok : bool)
| EvSemaRecv
| EvAddInt64 (delta : Z) (new : Z)
| EvLoadInt64 (v : Z)
| EvCountChanSend (v : Z) (delivered : bool)
| EvFinishedChanSend (info : FinishedConnInfo) (delivered : bool)
| EvPrintf (format : string) (args : list fmt_arg)
| EvClose (conn : net_Conn) (r : call (option error))
| EvRead (conn : net_Conn) (len : nat) (r : call (list Z * option error))
| EvAuthenticate (conn : net_Conn) (r : call (result AuthContext))
| EvNewRequest (conn : net_Conn) (r : call (result Request))
| EvSendReply (conn : net_Conn) (resp : reply_code) (addr : option AddrSpec)
    (r : call (option error))
| EvHandleRequest (req : Request) (conn : net_Conn) (r : call (option error))
| EvAccept (r : call (result net_Conn))
| EvNow (t : Z)
| EvConnectTimeout (d : Z)
| EvSetDeadline (conn : net_Conn) (t : Z) (r : call (option error))
| EvGo (conn : net_Conn).

Definition event_of_sync {X} (o : sync_op X) : X -> event :=
  match o in sync_op X return X -> event with
  | sema_TrySend => EvSemaSend
  | sema_Recv => fun _ => EvSemaRecv
  | atomic_AddInt64 delta => EvAddInt64 delta
  | atomic_LoadInt64 => EvLoadInt64
  end.

Definition event_of_ext {X} (o : ext_op X) : X -> event :=
  match o in ext_op X return X -> event with
  | ConnCountChan_TrySend v => EvCountChanSend v
  | FinishedConnChan_TrySend info => EvFinishedChanSend info
  | Logger_Printf format args => fun _ => EvPrintf format args
  | conn_Close conn => EvClose conn
  | bufConn_Read conn len => EvRead conn len
  | authenticate conn => EvAuthenticate conn
  | NewRequest conn => EvNewRequest conn
  | sendReply conn resp addr => EvSendReply conn resp addr
  | handleRequest req conn => EvHandleRequest req conn
  | l_Accept => EvAccept
  | time_Now => EvNow
  | config_ConnectTimeout => EvConnectTimeout
  | conn_SetDeadline conn t => EvSetDeadline conn t
  | go_ServeConn conn => fun _ => EvGo conn
  end.

(** ** Programs

    A program is the tree of the operations it may perform, one subtree
    for each answer. The functions of [socks5.go] have no loop but the
    accept loop, so their trees are finite. *)
Inductive prog (R : Type) : Type :=
| Ret (r : R)
| Sync {X : Type} (o : sync_op X) (k : X -> prog R)
| Ext {X : Type} (o : ext_op X) (k : X -> prog R).
Arguments Ret {R} r.
Arguments Sync {R X} o k.
Arguments Ext {R X} o k.

Fixpoint pbind {A B} (t : prog A) (f : A -> prog B) : prog B :=
  match t with
  | Ret a => f a
  | Sync o k => Sync o (fun x => pbind (k x) f)
  | Ext o k => Ext o (fun x => pbind (k x) f)
  end.

(** ** Function bodies: early return, panic and defer

    A statement of a Go function body falls through to the next one,
    returns from the function, or panics. *)
Inductive flow (A : Type) :=
| Next (a : A)
| Return (r : option error)
| Panic (v : panic_value).
Arguments Next {A} a.
Arguments Return {A} r.
Arguments Panic {A} v.

(** A deferred call runs when the function is left. It is given the panic
    in flight, if any (what [recover()] would return), and gives back the
    panic in flight after it ran: [None] once it recovered, a new value
    when it panicked itself. *)
Definition deferred := option panic_value -> prog (option panic_value).

(** A statement acts on the stack of deferred calls of its function. *)
Definition frame (A : Type) := list deferred -> prog (flow A * list deferred).

Definition fret {A} (a : A) : frame A := fun ds => Ret (Next a, ds).

Definition fbind {A B} (m : frame A) (f : A -> frame B) : frame B :=
  fun ds =>
    pbind (m ds) (fun '(fl, ds') =>
      match fl with
      | Next a => f a ds'
      | Return r => Ret (Return r, ds')
      | Panic v => Ret (Panic v, ds')
      end).

Definition return_ {A} (r : option error) : frame A := fun ds => Ret (Return r, ds).
Definition defer (d : deferred) : frame unit := fun ds => Ret (Next tt, d :: ds).
Definition sync {X} (o : sync_op X) : frame X := fun ds => Sync o (fun x => Ret (Next x, ds)).
Definition ext {X} (o : ext_op X) : frame X := fun ds => Ext o (fun x => Ret (Next x, ds)).

(** A call into foreign code: its panic unwinds the caller. *)
Definition invoke {X} (o : ext_op (call X)) : frame X :=
  fun ds => Ext o (fun r =>
    match r with
    | Back x => Ret (Next x, ds)
    | Panics v => Ret (Panic v, ds)
    end).

(** How a function is left: it returns its result, or its panic goes on
    into the caller. *)
Inductive exit :=
| Returned (r : option error)
| Propagated (v : panic_value).

(** The deferred calls run last in, first out. *)
Fixpoint run_deferred (ds : list deferred) (p : option panic_value)
    : prog (option panic_value) :=
  match ds with
  | [] => Ret p
  | d :: ds' => pbind (d p) (run_deferred ds')
  end.

(** [func body]: a function with one unnamed [error] result. A return
    statement sets the result before the deferred calls run; a function
    left by a panic that is recovered returns the result as it stands,
    which is nil unless a return statement had set it. *)
Definition func (body : frame unit) : prog exit :=
  pbind (body []) (fun '(fl, ds) =>
    let result := match fl with Return r => r | _ => None end in
    let panicking := match fl with Panic v => Some v | _ => None end in
    pbind (run_deferred ds panicking) (fun p =>
      Ret (match p with
           | None => Returned result
           | Some v => Propagated v
           end))).

Declare Scope prog_scope.
Delimit Scope prog_scope with prog.
Notation "x <- c1 ;; c2" := (pbind c1 (fun x => c2))
  (at level 100, c1 at next level, right associativity) : prog_scope.
Notation "c1 ;; c2" := (pbind c1 (fun _ => c2))
  (at level 100, right associativity) : prog_scope.

Declare Scope frame_scope.
Delimit Scope frame_scope with frame.
Notation "x <- c1 ;; c2" := (fbind c1 (fun x => c2))
  (at level 100, c1 at next level, right associativity) : frame_scope.
Notation "c1 ;; c2" := (fbind c1 (fun _ => c2))
  (at level 100, right associativity) : frame_scope.

(** An operation as a one-node program. *)
Definition psync {X} (o : sync_op X) : prog X := Sync o Ret.
Definition pext {X} (o : ext_op X) : prog X := Ext o Ret.

(** ** ServeConn *)

(** [copy(dst, src)] as [Read] does it into its buffer: the bytes read
    overwrite a prefix of the buffer. *)
Definition read_into (data buf : list Z) : list Z :=
  take (length buf) data ++ drop (length data) buf.

(** The first deferred call: [if r := recover(); r != nil { log }]. *)
Definition deferred_recover : deferred := fun p =>
  match p with
  | Some r =>
      (pext (Logger_Printf "[ERR] socks: Panic recovered: %v" [ArgPanic r]) ;;
       Ret None)%prog
  | None => Ret None
  end.

(** The second: [defer conn.Close()]; its error result is dropped. *)
Definition deferred_Close (conn : net_Conn) : deferred := fun p =>
  (r <- pext (conn_Close conn) ;;
   Ret (match r with
        | Back _ => p
        | Panics v => Some v
        end))%prog.

(** The third, registered only after admission: release the slot,
    decrement the counter, publish it without blocking. *)
Definition deferred_release : deferred := fun p =>
  (psync sema_Recv ;;
   psync (atomic_AddInt64 (-1)) ;;
   n <- psync atomic_LoadInt64 ;;
   pext (ConnCountChan_TrySend n) ;;
   Ret p)%prog.

Definition ServeConn_body (conn : net_Conn) : frame unit :=
  (defer deferred_recover ;;
   defer (deferred_Close conn) ;;
   admitted <- sync sema_TrySend ;;
   (if admitted then fret tt
    else
      let err := fmt_Errorf "Failed to handle request: exhausted" [] in
      ext (Logger_Printf "[ERR] socks: %v" [ArgError err]) ;;
      return_ (Some err)) ;;
   defer deferred_release ;;
   sync (atomic_AddInt64 1) ;;
   n <- sync atomic_LoadInt64 ;;
   ext (ConnCountChan_TrySend n) ;;
   (* bufConn := bufio.NewReader(conn) *)
   let version := [0] in
   r <- invoke (bufConn_Read conn (length version)) ;;
   let version := read_into (fst r) version in
   match snd r with
   | Some err =>
       ext (Logger_Printf "[ERR] socks: Failed to get version byte: %v" [ArgError err]) ;;
       return_ (Some err)
   | None => fret tt
   end ;;
   (if negb (nth 0 version 0 =? socks5Version) then
      let err := fmt_Errorf "Unsupported SOCKS version: %v" [ArgBytes version] in
      ext (Logger_Printf "[ERR] socks: %v" [ArgError err]) ;;
      return_ (Some err)
    else fret tt) ;;
   a <- invoke (authenticate conn) ;;
   authContext <-
     match a with
     | Err err =>
         let err := fmt_Errorf "Failed to authenticate: %v" [ArgError err] in
         ext (Logger_Printf "[ERR] socks: %v" [ArgError err]) ;;
         return_ (Some err)
     | Ok authContext => fret authContext
     end ;;
   q <- invoke (NewRequest conn) ;;
   request <-
     match q with
     | Err err =>
         (match err with
          | unrecognizedAddrType =>
              e <- invoke (sendReply conn addrTypeNotSupported None) ;;
              match e with
              | Some err' => return_ (Some (fmt_Errorf "Failed to send reply: %v" [ArgError err']))
              | None => fret tt
              end
          | _ => fret tt
          end) ;;
         return_ (Some (fmt_Errorf "Failed to read destination address: %v" [ArgError err]))
     | Ok request => fret request
     end ;;
   let request := set_Request_AuthContext (Some authContext) request in
   let request :=
     match RemoteAddr conn with
     | TCPAddr ip port =>
         set_Request_RemoteAddr (Some {| FQDN := ""; IP := ip; Port := port |}) request
     | OtherAddr _ _ => request
     end in
   e <- invoke (handleRequest request conn) ;;
   match e with
   | Some err =>
       let err := fmt_Errorf "Failed to handle request: %v" [ArgError err] in
       ext (Logger_Printf "[ERR] socks: %v" [ArgError err]) ;;
       return_ (Some err)
   | None => fret tt
   end ;;
   return_ None)%frame.

Definition ServeConn (conn : net_Conn) : prog exit := func (ServeConn_body conn).

(** ** Serve

    One pass of the body of [for { ... }]. [Serve] has no result and
    registers no deferred call. *)
Definition Serve_iteration : frame unit :=
  (r <- invoke l_Accept ;;
   match r with
   | Err err => ext (Logger_Printf "[ERR] socks: %v" [ArgError err])
   | Ok conn =>
       now <- ext time_Now ;;
       d <- ext config_ConnectTimeout ;;
       invoke (conn_SetDeadline conn (now + d)) ;;
       ext (go_ServeConn conn)
   end)%frame.

(** The first [n] passes of the loop. The statement falls through
    ([Next]) when the loop is about to start pass [n + 1]. *)
Fixpoint Serve_loop (n : nat) : frame unit :=
  match n with
  | O => fret tt
  | S n' => (Serve_iteration ;; Serve_loop n')%frame
  end.

(** ** Running a program alone

    [exec_sync] is the effect of a shared-state operation; [None] means the
    operation blocks in this state. *)
Definition exec_sync {X} (o : sync_op X) (s : Server) : option (X * Server) :=
  match o in sync_op X return option (X * Server) with
  | sema_TrySend =>
      if chan_len (sema s) <? chan_cap (sema s)
      then Some (true, set_sema {| chan_cap := chan_cap (sema s);
                                   chan_len := chan_len (sema s) + 1 |} s)
      else Some (false, s)
  | sema_Recv =>
      if 0 <? chan_len (sema s)
      then Some (tt, set_sema {| chan_cap := chan_cap (sema s);
                                 chan_len := chan_len (sema s) - 1 |} s)
      else None
  | atomic_AddInt64 delta =>
      let n := wrap64 (ConnCount s + delta) in
      Some (n, set_ConnCount n s)
  | atomic_LoadInt64 => Some (ConnCount s, s)
  end.

(** The environment: its answer to an operation may depend on everything
    that happened before. *)
Definition oracle := forall X : Type, list event -> ext_op X -> X.

(** One handler running with no other handler in between. The result is
    [None] when the program blocks for ever. *)
Fixpoint run {R} (env : oracle) (t : prog R) (s : Server) (tr : list event)
    : option (R * Server * list event) :=
  match t with
  | Ret r => Some (r, s, tr)
  | Sync o k =>
      match exec_sync o s with
      | Some (x, s') => run env (k x) s' (tr ++ [event_of_sync o x])
      | None => None
      end
  | Ext o k =>
      let x := env _ tr o in
      run env (k x) s (tr ++ [event_of_ext o x])
  end.

(** ** Reading a trace *)

(** The four events that change the shared state of the admission pool. *)
Definition is_admission (ev : event) : bool :=
  match ev with EvSemaSend true => true | _ => false end.
Definition is_release (ev : event) : bool :=
  match ev with EvSemaRecv => true | _ => false end.
Definition is_increment (ev : event) : bool :=
  match ev with EvAddInt64 delta _ => delta =? 1 | _ => false end.
Definition is_decrement (ev : event) : bool :=
  match ev with EvAddInt64 delta _ => delta =? -1 | _ => false end.

(** Events of the protocol run proper. *)
Definition is_read (ev : event) : bool :=
  match ev with EvRead _ _ _ => true | _ => false end.
Definition is_authenticate (ev : event) : bool :=
  match ev with EvAuthenticate _ _ => true | _ => false end.
Definition is_NewRequest (ev : event) : bool :=
  match ev with EvNewRequest _ _ => true | _ => false end.
Definition is_sendReply (ev : event) : bool :=
  match ev with EvSendReply _ _ _ _ => true | _ => false end.
Definition is_handleRequest (ev : event) : bool :=
  match ev with EvHandleRequest _ _ _ => true | _ => false end.
Definition is_finished_send (ev : event) : bool :=
  match ev with EvFinishedChanSend _ _ => true | _ => false end.

(** Events of the accept loop. *)
Definition is_accept (ev : event) : bool :=
  match ev with EvAccept _ => true | _ => false end.
Definition is_failed_accept (ev : event) : bool :=
  match ev with EvAccept (Back (Err _)) => true | _ => false end.
Definition is_log (ev : event) : bool :=
  match ev with EvPrintf _ _ => true | _ => false end.
Definition is_go (ev : event) : bool :=
  match ev with EvGo _ => true | _ => false end.

(** The calls through which bytes can reach the client: the reply writer
    and the two methods that are handed the connection for writing. *)
Definition may_write (ev : event) : bool :=
  is_sendReply ev || is_authenticate ev || is_handleRequest ev.

(** The calls through which bytes of the client can be consumed. *)
Definition may_read (ev : event) : bool :=
  is_read ev || is_authenticate ev || is_NewRequest ev || is_handleRequest ev.

Fixpoint count_events (f : event -> bool) (tr : list event) : nat :=
  match tr with
  | [] => O
  | ev :: tr' => ((if f ev then 1 else 0) + count_events f tr')%nat
  end.

(** The panic a call ended with, if it did. *)
Definition panic_of_call {A} (r : call A) : option panic_value :=
  match r with Back _ => None | Panics v => Some v end.

Definition panic_of_event (ev : event) : option panic_value :=
  match ev with
  | EvClose _ r => panic_of_call r
  | EvRead _ _ r => panic_of_call r
  | EvAuthenticate _ r => panic_of_call r
  | EvNewRequest _ r => panic_of_call r
  | EvSendReply _ _ _ r => panic_of_call r
  | EvHandleRequest _ _ r => panic_of_call r
  | EvAccept r => panic_of_call r
  | EvSetDeadline _ _ r => panic_of_call r
  | _ => None
  end.

(** The most recent panic of a trace. *)
Fixpoint last_panic (tr : list event) : option panic_value :=
  match tr with
  | [] => None
  | ev :: tr' =>
      match last_panic tr' with
      | Some v => Some v
      | None => panic_of_event ev
      end
  end.

(** The line the first deferred call of [ServeConn] logs for a panic. *)
Definition panic_log (v : panic_value) : event :=
  EvPrintf "[ERR] socks: Panic recovered: %v" [ArgPanic v].

(** No call of the accept loop into foreign code panics. *)
Definition calm (env : oracle) : Prop :=
  (forall tr, exists r, env _ tr l_Accept = Back r)
  /\ (forall tr conn t, exists r, env _ tr (conn_SetDeadline conn t) = Back r).

(** The accept loop is still running: its statement neither returned nor
    panicked nor blocked. *)
Definition still_looping (x : option (flow unit * list deferred * Server * list event))
    : Prop :=
  match x with
  | Some (Next _, _, _, _) => True
  | _ => False
  end.

(** ** Properties of every path of a program *)

(** [always P t h]: whatever the answers, a run of [t] that starts after
    the history [h] ends with a history and a result that satisfy [P]. *)
Fixpoint always {R} (P : list event -> R -> Prop) (t : prog R) (h : list event) : Prop :=
  match t with
  | Ret r => P h r
  | Sync o k => forall x, always P (k x) (h ++ [event_of_sync o x])
  | Ext o k => forall x, always P (k x) (h ++ [event_of_ext o x])
  end.

(** Where a handler stands with respect to the shared state. *)
Inductive phase :=
| Accepted     (* has not tried the slot channel yet *)
| Rejected     (* the slot channel was full *)
| Holding     (* holds a slot, has not incremented the counter yet *)
| Counted      (* holds a slot and is counted *)
| Released     (* gave the slot back, has not decremented the counter yet *)
| Finished.    (* gave the slot back and decremented the counter *)

(** The moves a handler is allowed; [None] is a move out of order. *)
Definition phase_step (ph : phase) (ev : event) : option phase :=
  match ev with
  | EvSemaSend ok =>
      match ph with
      | Accepted => Some (if ok then Holding else Rejected)
      | _ => None
      end
  | EvSemaRecv =>
      match ph with Counted => Some Released | _ => None end
  | EvAddInt64 delta _ =>
      if delta =? 1 then match ph with Holding => Some Counted | _ => None end
      else if delta =? -1 then match ph with Released => Some Finished | _ => None end
      else None
  | _ => Some ph
  end.

Definition phase_final (ph : phase) : Prop := ph = Rejected \/ ph = Finished.

(** [follows ph t]: from phase [ph] on, every operation of [t] on the
    shared state is an allowed move, and [t] ends rejected or finished. *)
Fixpoint follows {R} (ph : phase) (t : prog R) : Prop :=
  match t with
  | Ret _ => phase_final ph
  | Sync o k =>
      forall x, exists ph', phase_step ph (event_of_sync o x) = Some ph' /\ follows ph' (k x)
  | Ext o k => forall x, follows ph (k x)
  end.

(** ** Handlers running side by side

    A handler in flight is what it did so far and what it has left to do.
    The accept loop starts handlers ([go s.ServeConn(conn)]); one step of
    the system is one operation of one handler. Operations on the shared
    state are atomic; an operation that would block is not a step. *)
Record handler := { history : list event; code : prog exit }.

Record system := { server : Server; handlers : list handler }.

Inductive step : system -> system -> Prop :=
| step_go sys conn :
    step sys
      {| server := server sys;
         handlers := handlers sys ++ [{| history := []; code := ServeConn conn |}] |}
| step_sync sys i h X (o : sync_op X) (k : X -> prog exit) x s' :
    handlers sys !! i = Some {| history := h; code := Sync o k |} ->
    exec_sync o (server sys) = Some (x, s') ->
    step sys
      {| server := s';
         handlers := <[i := {| history := h ++ [event_of_sync o x]; code := k x |}]>
                       (handlers sys) |}
| step_ext sys i h X (o : ext_op X) (k : X -> prog exit) x :
    handlers sys !! i = Some {| history := h; code := Ext o k |} ->
    step sys
      {| server := server sys;
         handlers := <[i := {| history := h ++ [event_of_ext o x]; code := k x |}]>
                       (handlers sys) |}.

Inductive reachable (s0 : Server) : system -> Prop :=
| reachable_start : reachable s0 {| server := s0; handlers := [] |}
| reachable_step sys sys' : reachable s0 sys -> step sys sys' -> reachable s0 sys'.

(** A handler that passed admission and has not released its slot. *)
Definition in_body (hd : handler) : bool :=
  existsb is_admission (history hd) && negb (existsb is_release (history hd)).

(** A handler whose increment of the counter is not undone yet. *)
Definition counted (hd : handler) : bool :=
  existsb is_increment (history hd) && negb (existsb is_decrement (history hd)).

(** A handler between its admission and its increment, or between its
    release and its decrement. *)
Definition in_transit (hd : handler) : bool :=
  (existsb is_admission (history hd) && negb (existsb is_increment (history hd)))
  || (existsb is_release (history hd) && negb (existsb is_decrement (history hd))).

Fixpoint count_handlers (f : handler -> bool) (l : list handler) : Z :=
  match l with
  | [] => 0
  | hd :: l' => (if f hd then 1 else 0) + count_handlers f l'
  end.

(** A quiescent point: no handler is in transit. *)
Definition quiescent (sys : system) : Prop :=
  count_handlers in_transit (handlers sys) = 0.

(** ** Notions used by the proofs *)

(** What a history says of the phase its handler is in: which of the four
    shared-state events it has seen. *)
Definition in_phase (h : list event) (ph : phase) : Prop :=
  existsb is_admission h
    = match ph with Accepted | Rejected => false | _ => true end
  /\ existsb is_increment h
    = match ph with Counted | Released | Finished => true | _ => false end
  /\ existsb is_release h
    = match ph with Released | Finished => true | _ => false end
  /\ existsb is_decrement h
    = match ph with Finished => true | _ => false end.

Definition phase_in_body (ph : phase) : bool :=
  match ph with Holding | Counted => true | _ => false end.

Definition phase_counted (ph : phase) : bool :=
  match ph with Counted | Released => true | _ => false end.

Definition phase_in_transit (ph : phase) : bool :=
  match ph with Holding | Released => true | _ => false end.

(** A handler in flight did only allowed moves and has only allowed moves
    left. *)
Definition handler_ok (hd : handler) : Prop :=
  exists ph, in_phase (history hd) ph /\ follows ph (code hd).

Definition b2z (b : bool) : Z := if b then 1 else 0.

(** The invariant of the running system: the slot channel holds one token
    for each handler in its body, never more than its capacity, and the
    counter is the number of counted handlers. *)
Definition consistent (s0 : Server) (sys : system) : Prop :=
  Forall handler_ok (handlers sys)
  /\ chan_cap (sema (server sys)) = chan_cap (sema s0)
  /\ chan_len (sema (server sys)) = count_handlers in_body (handlers sys)
  /\ chan_len (sema (server sys)) <= chan_cap (sema (server sys))
  /\ ConnCount (server sys) = wrap64 (count_handlers counted (handlers sys)).

(** A server nobody has used yet. *)
Definition unused (s0 : Server) : Prop :=
  chan_len (sema s0) = 0 /\ 0 <= chan_cap (sema s0) /\ ConnCount s0 = 0.

(** In a phase that holds a slot, the slot channel is not empty, so that
    the release does not block. *)
Definition holds_slot (ph : phase) (s : Server) : Prop :=
  match ph with
  | Accepted => 0 <= chan_len (sema s)
  | Holding | Counted => 0 < chan_len (sema s)
  | _ => True
  end.

(** What the trace says of the slot channel: admissions minus releases. *)
Definition slots_taken (tr : list event) : Z :=
  Z.of_nat (count_events is_admission tr) - Z.of_nat (count_events is_release tr).


(** ** Concrete environments and inputs for the examples *)

(** An environment whose answers do not depend on the history. *)
Record script := {
  on_ConnCountChan : bool;
  on_Close : call (option error);
  on_Read : call (list Z * option error);
  on_authenticate : call (result AuthContext);
  on_NewRequest : call (result Request);
  on_sendReply : call (option error);
  on_handleRequest : call (option error);
  on_Accept : call (result net_Conn)
}.

Definition scripted (a : script) : oracle := fun X _ o =>
  match o in ext_op X return X with
  | ConnCountChan_TrySend _ => on_ConnCountChan a
  | FinishedConnChan_TrySend _ => false
  | Logger_Printf _ _ => tt
  | conn_Close _ => on_Close a
  | bufConn_Read _ _ => on_Read a
  | authenticate _ => on_authenticate a
  | NewRequest _ => on_NewRequest a
  | sendReply _ _ _ => on_sendReply a
  | handleRequest _ _ => on_handleRequest a
  | l_Accept => on_Accept a
  | time_Now => 0
  | config_ConnectTimeout => 0
  | conn_SetDeadline _ _ => Back None
  | go_ServeConn _ => tt
  end.

Definition example_conn : net_Conn :=
  {| conn_id := 1; RemoteAddr := TCPAddr [127; 0; 0; 1] 40000 |}.

Definition example_AuthContext : AuthContext := {| Method := 0; Payload := [] |}.

Definition example_Request : Request :=
  {| Command := 1; Request_AuthContext := None; Request_RemoteAddr := None;
     DestAddr := Some {| FQDN := ""; IP := [127; 0; 0; 1]; Port := 8080 |} |}.

(** A client that sends the first byte [b]; everything after it succeeds,
    except the request decoding, which ends as [req] says. *)
Definition client_script (b : Z) (req : call (result Request)) : script :=
  {| on_ConnCountChan := false;
     on_Close := Back None;
     on_Read := Back ([b], None);
     on_authenticate := Back (Ok example_AuthContext);
     on_NewRequest := req;
     on_sendReply := Back None;
     on_handleRequest := Back None;
     on_Accept := Back (Ok example_conn) |}.

(** A listener that was closed: every [Accept] fails for good. *)
Definition closed_listener : script :=
  {| on_ConnCountChan := false;
     on_Close := Back None;
     on_Read := Back ([], Some (ExternalError "EOF"));
     on_authenticate := Back (Err (ExternalError "EOF"));
     on_NewRequest := Back (Err (ExternalError "EOF"));
     on_sendReply := Back None;
     on_handleRequest := Back None;
     on_Accept := Back (Err (net_Error "use of closed network connection" false)) |}.

(** The zero Config, [&Config{}], and a Config with its own choices. *)
Definition zero_Config : Config :=
  {| AuthMethods := []; Credentials := None; Resolver := None; Rules := None;
     Rewriter := None; BindIP := []; Logger := None; Dial := None;
     ConnLimit := 0; IdleTimeout := 0; ConnectTimeout := 0 |}.

Definition custom_Config : Config :=
  {| AuthMethods := [Some (CustomAuthenticator 7); Some NoAuthAuthenticator];
     Credentials := Some (CredentialStoreImpl 1);
     Resolver := Some (CustomResolver 1); Rules := Some (CustomRules 1);
     Rewriter := None; BindIP := []; Logger := Some (CustomLogger 1); Dial := None;
     ConnLimit := 2; IdleTimeout := 0; ConnectTimeout := 0 |}.

(** The method identifiers of the three authenticators of the examples. *)
Definition example_GetCode (a : Authenticator) : Z :=
  match a with
  | NoAuthAuthenticator => 0
  | UserPassAuthenticator _ => 2
  | CustomAuthenticator id => Z.of_nat id
  end.

(** A server as [New] leaves it, with a pool of [cap] slots of which
    [len] are taken. *)
Definition server_with (cap len : Z) : Server :=
  {| config := 1%positive;
     authMethods := {[ 0 := NoAuthAuthenticator ]};
     sema := {| chan_cap := cap; chan_len := len |};
     ConnCountChan := {| chan_cap := 0; chan_len := 0 |};
     ConnCount := len;
     FinishedConnChan := {| chan_cap := 0; chan_len := 0 |} |}.

(** ** More notions for reading a trace *)

(** The range of [int64]. *)
Definition is_int64 (z : Z) : Prop := - 2 ^ 63 <= z < 2 ^ 63.

Definition is_close (ev : event) : bool :=
  match ev with EvClose _ _ => true | _ => false end.

(** What follows the first event that satisfies [f]. *)
Fixpoint after_first (f : event -> bool) (tr : list event) : list event :=
  match tr with
  | [] => []
  | ev :: tr' => if f ev then tr' else after_first f tr'
  end.



(** The sum of the deltas added to the counter. *)
Fixpoint counter_delta (tr : list event) : Z :=
  match tr with
  | [] => 0
  | EvAddInt64 delta _ :: tr' => delta + counter_delta tr'
  | _ :: tr' => counter_delta tr'
  end.

(** The request [ServeConn] hands to [handleRequest]: the decoded request
    with the authentication context attached and, when the peer address
    is a TCP address, the peer address. *)
Definition request_for (conn : net_Conn) (ctx : AuthContext) (q : Request) : Request :=
  let request := set_Request_AuthContext (Some ctx) q in
  match RemoteAddr conn with
  | TCPAddr ip port =>
      set_Request_RemoteAddr (Some {| FQDN := ""; IP := ip; Port := port |}) request
  | OtherAddr _ _ => request
  end.

(** The protocol calls of a trace, in order, with what they were given
    and what they answered. *)
Definition is_protocol_call (ev : event) : bool :=
  is_read ev || is_authenticate ev || is_NewRequest ev || is_sendReply ev
  || is_handleRequest ev.

Definition protocol_calls (tr : list event) : list event :=
  List.filter is_protocol_call tr.

(** The traces of the accept loop: a sequence of passes, each a failed
    accept with its log line, or an accepted connection with its deadline
    set to now plus the connect timeout, whatever [SetDeadline] answers,
    and its handler started. *)
Inductive Serve_trace : list event -> Prop :=
| Serve_trace_nil : Serve_trace []
| Serve_trace_failed err tr :
    Serve_trace tr ->
    Serve_trace (EvAccept (Back (Err err))
                   :: EvPrintf "[ERR] socks: %v" [ArgError err] :: tr)
| Serve_trace_accepted conn now d r tr :
    Serve_trace tr ->
    Serve_trace (EvAccept (Back (Ok conn)) :: EvNow now :: EvConnectTimeout d
                   :: EvSetDeadline conn (now + d) (Back r) :: EvGo conn :: tr).

(** ** ListenAndServe

    [net.Listen] is answered by the environment: [listened] is its
    answer. On an error the function returns (it has no result, and it
    does not log); else it serves on the listener. *)
Definition ListenAndServe_passes (listened : call (result unit)) (n : nat) : frame unit :=
  match listened with
  | Panics v => fun ds => Ret (Panic v, ds)
  | Back (Err _) => return_ None
  | Back (Ok _) => Serve_loop n
  end.

(** A Config with a pool of one slot. *)
Definition one_slot_Config : Config :=
  {| AuthMethods := []; Credentials := None; Resolver := None; Rules := None;
     Rewriter := None; BindIP := []; Logger := None; Dial := None;
     ConnLimit := 1; IdleTimeout := 0; ConnectTimeout := 0 |}.

(** [NewRequest] came back with an error. *)
Definition is_failed_decode (ev : event) : bool :=
  match ev with EvNewRequest _ (Back (Err _)) => true | _ => false end.

(** A Config whose two authenticators have the same method code under
    [example_GetCode]. *)
Definition duplicate_Config : Config :=
  {| AuthMethods := [Some (CustomAuthenticator 0); Some NoAuthAuthenticator];
     Credentials := None; Resolver := None; Rules := None;
     Rewriter := None; BindIP := []; Logger := None; Dial := None;
     ConnLimit := 2; IdleTimeout := 0; ConnectTimeout := 0 |}.

(** ** An executable scheduler

    One step of one handler, with the answers of the environment taken
    from an oracle that sees the history of that handler. *)
Definition handler_step (env : oracle) (s : Server) (hd : handler)
    : option (Server * handler) :=
  match code hd with
  | Ret _ => None
  | Sync o k =>
      match exec_sync o s with
      | Some (x, s') =>
          Some (s', {| history := history hd ++ [event_of_sync o x]; code := k x |})
      | None => None
      end
  | Ext o k =>
      let x := env _ (history hd) o in
      Some (s, {| history := history hd ++ [event_of_ext o x]; code := k x |})
  end.

(** What a schedule is made of: the accept loop starts a handler, or the
    handler number [i] does its next operation. *)
Inductive action :=
| Go (conn : net_Conn)
| Step (i : nat).

Definition act (env : oracle) (sys : system) (a : action) : option system :=
  match a with
  | Go conn =>
      Some {| server := server sys;
              handlers := handlers sys ++ [{| history := []; code := ServeConn conn |}] |}
  | Step i =>
      match handlers sys !! i with
      | Some hd =>
          match handler_step env (server sys) hd with
          | Some (s', hd') =>
              Some {| server := s'; handlers := <[i := hd']> (handlers sys) |}
          | None => None
          end
      | None => None
      end
  end.

Fixpoint schedule (env : oracle) (sys : system) (l : list action) : option system :=
  match l with
  | [] => Some sys
  | a :: l' =>
      match act env sys a with
      | Some sys' => schedule env sys' l'
      | None => None
      end
  end.

(** A handler that has returned. *)
Definition has_returned (hd : handler) : Prop := exists r, code hd = Ret r.

(** A client whose connection fails at the first read. *)
Definition broken_client : script :=
  {| on_ConnCountChan := false;
     on_Close := Back None;
     on_Read := Back ([], Some (ExternalError "EOF"));
     on_authenticate := Back (Err (ExternalError "EOF"));
     on_NewRequest := Back (Err (ExternalError "EOF"));
     on_sendReply := Back None;
     on_handleRequest := Back None;
     on_Accept := Back (Ok example_conn) |}.

(** Two handlers on a pool of one slot: the first runs until it has
    given its slot back, but not yet decremented the counter; then the
    second is admitted and counted. *)
Definition overtaking : list action :=
  [Go example_conn; Go example_conn;
   Step 0; Step 0; Step 0; Step 0; Step 0; Step 0; Step 0;
   Step 1; Step 1]%nat.

(** One handler from start to return. *)
Definition one_handler : list action :=
  [Go example_conn;
   Step 0; Step 0; Step 0; Step 0; Step 0; Step 0; Step 0; Step 0; Step 0; Step 0;
   Step 0]%nat.

(** The system at the start, and where a schedule takes it (the start
    itself if the schedule cannot run). *)
Definition start (s0 : Server) : system := {| server := s0; handlers := [] |}.

Definition after (env : oracle) (s0 : Server) (l : list action) : system :=
  default (start s0) (schedule env (start s0) l).

(** An offer of the count on [ConnCountChan], and an offer of the value
    [v]. *)
Definition is_count_send (ev : event) : bool :=
  match ev with EvCountChanSend _ _ => true | _ => false end.

(** The values offered on [ConnCountChan], in order. *)
Fixpoint counts_offered (tr : list event) : list Z :=
  match tr with
  | [] => []
  | EvCountChanSend v _ :: tr' => v :: counts_offered tr'
  | _ :: tr' => counts_offered tr'
  end.

(** The values loaded from the counter, in order. *)
Fixpoint counts_loaded (tr : list event) : list Z :=
  match tr with
  | [] => []
  | EvLoadInt64 v :: tr' => v :: counts_loaded tr'
  | _ :: tr' => counts_loaded tr'
  end.

(** * Properties *)

(** ** New: the defaults and the shared Config *)

Section NewFacts.

Variable GetCode : Authenticator -> Z.

(** The store after [New]: the object at [conf] holds the defaulted
    values, whether [New] returns or panics afterwards. *)
Lemma New_store (p : loc) (h : gmap loc Config) (c : Config) :
  h !! p = Some c ->
  (New GetCode (Some p) h).2 = <[p := defaults c]> h.
Proof.
  intros Hp. unfold New. rewrite Hp.
  set (h5 := alter default_ConnLimit p _).
  assert (E : h5 = <[p := defaults c]> h).
  { subst h5. apply map_eq. intros q.
    destruct (decide (p = q)) as [->|Hne].
    - rewrite !lookup_alter_eq, Hp, lookup_insert_eq. reflexivity.
    - rewrite !lookup_alter_ne, lookup_insert_ne by done. reflexivity. }
  rewrite E, lookup_insert_eq.
  repeat case_match; reflexivity.
Qed.

(** The result of [New]: a panic on a negative connection cap or a nil
    authenticator, else the server. *)
Lemma New_result (p : loc) (h : gmap loc Config) (c : Config) :
  h !! p = Some c ->
  (New GetCode (Some p) h).1 =
    if ConnLimit (defaults c) <? 0
    then Panics (RuntimeError "makechan: size out of range")
    else match register_authMethods GetCode (AuthMethods (defaults c)) ∅ with
         | Panics v => Panics v
         | Back m =>
             Back ({| config := p; authMethods := m;
                      sema := {| chan_cap := ConnLimit (defaults c); chan_len := 0 |};
                      ConnCountChan := {| chan_cap := 0; chan_len := 0 |};
                      ConnCount := 0;
                      FinishedConnChan := {| chan_cap := 0; chan_len := 0 |} |}, None)
         end.
Proof.
  intros Hp. unfold New. rewrite Hp.
  set (h5 := alter default_ConnLimit p _).
  assert (E : h5 !! p = Some (defaults c)).
  { subst h5. rewrite !lookup_alter_eq, Hp. reflexivity. }
  rewrite E. unfold make_chan.
  destruct (ConnLimit (defaults c) <? 0); cbn; [reflexivity|].
  destruct (register_authMethods _ _ _); reflexivity.
Qed.

Lemma register_authMethods_total (l : list (option Authenticator)) :
  Forall is_Some l ->
  forall m, exists m', register_authMethods GetCode l m = Back m'.
Proof.
  induction 1 as [|a l [x ->] _ IH]; intros m; cbn; eauto.
Qed.

Lemma New_unused (p : loc) (h : gmap loc Config) (c : Config) (s0 : Server)
    (e : option error) :
  h !! p = Some c ->
  (New GetCode (Some p) h).1 = Back (s0, e) ->
  sema s0 = {| chan_cap := ConnLimit (defaults c); chan_len := 0 |} /\ unused s0.
Proof.
  intros Hp. rewrite (New_result p h c Hp).
  destruct (Z.ltb_spec (ConnLimit (defaults c)) 0); [discriminate|].
  destruct (register_authMethods _ _ _); [|discriminate].
  intros [= <- _]. cbn. repeat split; auto.
Qed.

End NewFacts.

Lemma defaults_AuthMethods (c : Config) :
  AuthMethods (defaults c) = AuthMethods (default_AuthMethods c).
Proof.
  unfold defaults, default_ConnLimit, default_Logger, default_Rules, default_Resolver.
  repeat case_match; reflexivity.
Qed.

Lemma defaults_ConnLimit (c : Config) :
  ConnLimit (defaults c) = if ConnLimit c =? 0 then 50000 else ConnLimit c.
Proof.
  unfold defaults, default_ConnLimit, default_Logger, default_Rules, default_Resolver,
    default_AuthMethods.
  repeat case_match; cbn in *; congruence.
Qed.

Lemma default_AuthMethods_not_nil (c : Config) :
  Forall is_Some (AuthMethods c) -> Forall is_Some (AuthMethods (default_AuthMethods c)).
Proof.
  unfold default_AuthMethods. intros H.
  destruct (AuthMethods c) eqn:E; [|rewrite E; exact H].
  destruct (Credentials c); cbn; repeat constructor; eauto.
Qed.

(** C8: for a Config whose ConnLimit is 0, [New] stores 50000 as the cap
    in the Config, the slot channel of the server it returns has capacity
    50000 and is empty, and [New] does return a server when no entry of
    the method list is nil. *)
Theorem New_ConnLimit_zero GetCode (p : loc) (h : gmap loc Config) (c : Config) :
  h !! p = Some c ->
  ConnLimit c = 0 ->
  ConnLimit <$> ((New GetCode (Some p) h).2 !! p) = Some 50000
  /\ (forall s e, (New GetCode (Some p) h).1 = Back (s, e) ->
        sema s = {| chan_cap := 50000; chan_len := 0 |})
  /\ (Forall is_Some (AuthMethods c) ->
        exists s, (New GetCode (Some p) h).1 = Back (s, None)).
Proof.
  intros Hp H0.
  pose proof (defaults_ConnLimit c) as HL. rewrite H0 in HL. cbn in HL.
  rewrite (New_store GetCode p h c Hp), (New_result GetCode p h c Hp), HL.
  rewrite lookup_insert_eq. cbn. rewrite HL.
  split; [reflexivity|]. split.
  - intros s e. destruct (register_authMethods _ _ _); [|discriminate].
    intros [= <- _]. reflexivity.
  - intros Hnil. rewrite defaults_AuthMethods.
    destruct (register_authMethods_total GetCode _ (default_AuthMethods_not_nil c Hnil) ∅)
      as [m ->].
    eauto.
Qed.

Lemma New_ConnLimit_zero_witness :
  ConnLimit <$> ((New example_GetCode (Some 1%positive) {[ 1%positive := zero_Config ]}).2
                   !! 1%positive) = Some 50000
  /\ (forall s e,
        (New example_GetCode (Some 1%positive) {[ 1%positive := zero_Config ]}).1 = Back (s, e) ->
        sema s = {| chan_cap := 50000; chan_len := 0 |})
  /\ (Forall is_Some (AuthMethods zero_Config) ->
        exists s,
          (New example_GetCode (Some 1%positive) {[ 1%positive := zero_Config ]}).1
          = Back (s, None)).
Proof.
  apply (New_ConnLimit_zero example_GetCode 1%positive {[ 1%positive := zero_Config ]}
           zero_Config); reflexivity.
Defined.

(** C9: for a Config with an empty method list, [New] stores a list of
    exactly one authenticator, the username/password one when a
    credential store is set and the no-auth one otherwise, and the method
    table of the server holds exactly that authenticator under its code;
    a non-empty method list is stored unchanged. *)
Theorem New_default_authenticator GetCode (p : loc) (h : gmap loc Config) (c : Config) :
  h !! p = Some c ->
  (AuthMethods c = [] ->
     let a := match Credentials c with
              | Some creds => UserPassAuthenticator creds
              | None => NoAuthAuthenticator
              end in
     AuthMethods <$> ((New GetCode (Some p) h).2 !! p) = Some [Some a]
     /\ (forall s e, (New GetCode (Some p) h).1 = Back (s, e) ->
           authMethods s = {[ GetCode a := a ]})
     /\ (0 <= ConnLimit c -> exists s, (New GetCode (Some p) h).1 = Back (s, None)))
  /\ (AuthMethods c <> [] ->
        AuthMethods <$> ((New GetCode (Some p) h).2 !! p) = Some (AuthMethods c)).
Proof.
  intros Hp.
  rewrite (New_store GetCode p h c Hp), (New_result GetCode p h c Hp), lookup_insert_eq.
  cbn. rewrite defaults_AuthMethods. unfold default_AuthMethods. split.
  - intros ->.
    assert (Hl : 0 <= ConnLimit c -> (ConnLimit (defaults c) <? 0) = false).
    { intros Hc. rewrite defaults_ConnLimit. destruct (Z.eqb_spec (ConnLimit c) 0); lia. }
    destruct (Credentials c); cbn; (split; [reflexivity|]); split.
    + intros s e. destruct (_ <? _); [discriminate|]. intros [= <- _]. reflexivity.
    + intros Hc. rewrite (Hl Hc). eauto.
    + intros s e. destruct (_ <? _); [discriminate|]. intros [= <- _]. reflexivity.
    + intros Hc. rewrite (Hl Hc). eauto.
  - intros Hne. destruct (AuthMethods c) eqn:E; [contradiction|rewrite E; reflexivity].
Qed.

Lemma New_default_authenticator_witness :
  ((AuthMethods zero_Config = [] ->
      let a := match Credentials zero_Config with
               | Some creds => UserPassAuthenticator creds
               | None => NoAuthAuthenticator
               end in
      AuthMethods <$> ((New example_GetCode (Some 1%positive) {[ 1%positive := zero_Config ]}).2
                         !! 1%positive) = Some [Some a]
      /\ (forall s e,
            (New example_GetCode (Some 1%positive) {[ 1%positive := zero_Config ]}).1
            = Back (s, e) ->
            authMethods s = {[ example_GetCode a := a ]})
      /\ (0 <= ConnLimit zero_Config ->
            exists s,
              (New example_GetCode (Some 1%positive) {[ 1%positive := zero_Config ]}).1
              = Back (s, None)))
   /\ (AuthMethods zero_Config <> [] ->
         AuthMethods <$> ((New example_GetCode (Some 1%positive) {[ 1%positive := zero_Config ]}).2
                            !! 1%positive) = Some (AuthMethods zero_Config)))
  /\ ((AuthMethods custom_Config = [] ->
       let a := match Credentials custom_Config with
                | Some creds => UserPassAuthenticator creds
                | None => NoAuthAuthenticator
                end in
       AuthMethods <$> ((New example_GetCode (Some 1%positive)
                           {[ 1%positive := custom_Config ]}).2 !! 1%positive)
       = Some [Some a]
       /\ (forall s e,
             (New example_GetCode (Some 1%positive) {[ 1%positive := custom_Config ]}).1
             = Back (s, e) ->
             authMethods s = {[ example_GetCode a := a ]})
       /\ (0 <= ConnLimit custom_Config ->
             exists s,
               (New example_GetCode (Some 1%positive) {[ 1%positive := custom_Config ]}).1
               = Back (s, None)))
      /\ (AuthMethods custom_Config <> [] ->
          AuthMethods <$> ((New example_GetCode (Some 1%positive)
                              {[ 1%positive := custom_Config ]}).2 !! 1%positive)
          = Some (AuthMethods custom_Config))).
Proof.
  split.
  - apply (New_default_authenticator example_GetCode 1%positive
             {[ 1%positive := zero_Config ]} zero_Config).
    reflexivity.
  - apply (New_default_authenticator example_GetCode 1%positive
             {[ 1%positive := custom_Config ]} custom_Config).
    reflexivity.
Defined.

(** C10: [New] writes the defaulted values into the object its argument
    points to (the store holds them at that pointer afterwards, and no
    other object changes), and the server it returns keeps that same
    pointer. The defaulted object is the caller's with the method list,
    resolver, rule set, logger and connection cap filled in where they
    were empty, and nothing else touched. *)
Theorem New_writes_through_pointer GetCode (p : loc) (h : gmap loc Config) (c : Config) :
  h !! p = Some c ->
  (New GetCode (Some p) h).2 !! p = Some (defaults c)
  /\ (forall q, q <> p -> (New GetCode (Some p) h).2 !! q = h !! q)
  /\ (forall s e, (New GetCode (Some p) h).1 = Back (s, e) -> config s = p)
  /\ AuthMethods (defaults c) =
       match AuthMethods c with
       | [] => [Some match Credentials c with
                     | Some creds => UserPassAuthenticator creds
                     | None => NoAuthAuthenticator
                     end]
       | _ :: _ => AuthMethods c
       end
  /\ Resolver (defaults c) = Some (default DNSResolver (Resolver c))
  /\ Rules (defaults c) = Some (default PermitAll (Rules c))
  /\ Logger (defaults c) = Some (default (log_New_Stdout "" log_LstdFlags) (Logger c))
  /\ ConnLimit (defaults c) = (if ConnLimit c =? 0 then 50000 else ConnLimit c)
  /\ Credentials (defaults c) = Credentials c
  /\ Rewriter (defaults c) = Rewriter c
  /\ BindIP (defaults c) = BindIP c
  /\ Dial (defaults c) = Dial c
  /\ IdleTimeout (defaults c) = IdleTimeout c
  /\ ConnectTimeout (defaults c) = ConnectTimeout c.
Proof.
  intros Hp.
  rewrite (New_store GetCode p h c Hp), (New_result GetCode p h c Hp).
  split; [apply lookup_insert_eq|].
  split; [intros q Hq; apply lookup_insert_ne; congruence|].
  split.
  { intros s e. destruct (_ <? _); [discriminate|].
    destruct (register_authMethods _ _ _); [|discriminate].
    intros [= <- _]. reflexivity. }
  destruct c as [am cr rs ru rw bi lg di cl it ct].
  unfold defaults, default_ConnLimit, default_Logger, default_Rules, default_Resolver,
    default_AuthMethods; cbn.
  destruct am, cr, rs, ru, lg; cbn; destruct (cl =? 0); cbn; repeat split; reflexivity.
Qed.

Lemma New_writes_through_pointer_witness :
  (New example_GetCode (Some 1%positive) {[ 1%positive := zero_Config ]}).2 !! 1%positive
    = Some (defaults zero_Config)
  /\ (forall q, q <> 1%positive ->
        (New example_GetCode (Some 1%positive) {[ 1%positive := zero_Config ]}).2 !! q
        = ({[ 1%positive := zero_Config ]} : gmap loc Config) !! q)
  /\ (forall s e,
        (New example_GetCode (Some 1%positive) {[ 1%positive := zero_Config ]}).1
        = Back (s, e) ->
        config s = 1%positive)
  /\ AuthMethods (defaults zero_Config) = [Some NoAuthAuthenticator]
  /\ Resolver (defaults zero_Config) = Some DNSResolver
  /\ Rules (defaults zero_Config) = Some PermitAll
  /\ Logger (defaults zero_Config) = Some (log_New_Stdout "" log_LstdFlags)
  /\ ConnLimit (defaults zero_Config) = 50000
  /\ Credentials (defaults zero_Config) = None
  /\ Rewriter (defaults zero_Config) = None
  /\ BindIP (defaults zero_Config) = []
  /\ Dial (defaults zero_Config) = None
  /\ IdleTimeout (defaults zero_Config) = 0
  /\ ConnectTimeout (defaults zero_Config) = 0.
Proof.
  apply (New_writes_through_pointer example_GetCode 1%positive
           {[ 1%positive := zero_Config ]} zero_Config).
  reflexivity.
Defined.

(** ** Runs and paths *)

Lemma count_events_app (f : event -> bool) (l1 l2 : list event) :
  count_events f (l1 ++ l2) = (count_events f l1 + count_events f l2)%nat.
Proof. induction l1 as [|ev l1 IH]; cbn; [reflexivity|]. rewrite IH. lia. Qed.

(** A run is one path of the program. *)
Lemma run_always {R} (env : oracle) (P : list event -> R -> Prop) (t : prog R) :
  forall s h r s' tr,
    always P t h -> run env t s h = Some (r, s', tr) -> P tr r.
Proof.
  induction t as [r0|X o k IH|X o k IH]; intros s h r s' tr HP Hrun; cbn in *.
  - injection Hrun as <- _ <-. exact HP.
  - destruct (exec_sync o s) as [[x s1]|]; [|discriminate]. eauto.
  - eauto.
Qed.

Lemma run_pbind {A B} (env : oracle) (t : prog A) (f : A -> prog B) :
  forall s h,
    run env (pbind t f) s h =
    match run env t s h with
    | Some (a, s', h') => run env (f a) s' h'
    | None => None
    end.
Proof.
  induction t as [r0|X o k IH|X o k IH]; intros s h; cbn.
  - reflexivity.
  - destruct (exec_sync o s) as [[x s1]|]; [apply IH|reflexivity].
  - apply IH.
Qed.

(** A program that does only allowed moves never blocks when it runs
    alone: it receives from the slot channel only after it sent. *)
Lemma run_total {R} (env : oracle) (t : prog R) :
  forall ph s h,
    follows ph t -> holds_slot ph s -> is_Some (run env t s h).
Proof.
  induction t as [r0|X o k IH|X o k IH]; intros ph s h Hf Hs; cbn in *.
  - eauto.
  - destruct o; cbn in *.
    + destruct (Hf true) as (ph1 & E1 & F1). destruct (Hf false) as (ph2 & E2 & F2).
      destruct ph; try discriminate. injection E1 as <-. injection E2 as <-.
      destruct (Z.ltb_spec (chan_len (sema s)) (chan_cap (sema s))).
      * eapply IH; [exact F1|]. cbn in *. lia.
      * eapply IH; [exact F2|]. exact I.
    + destruct (Hf tt) as (ph1 & E1 & F1).
      destruct ph; try discriminate. injection E1 as <-. cbn in Hs.
      destruct (Z.ltb_spec 0 (chan_len (sema s))); [|lia].
      eapply IH; [exact F1|]. exact I.
    + destruct (Hf (wrap64 (ConnCount s + delta))) as (ph1 & E1 & F1).
      eapply IH; [exact F1|].
      destruct (delta =? 1); [|destruct (delta =? -1)];
        destruct ph; try discriminate; injection E1 as <-; cbn in *; auto.
    + destruct (Hf (ConnCount s)) as (ph1 & E1 & F1). injection E1 as <-.
      eapply IH; [exact F1|]. destruct ph; exact Hs.
  - eapply IH; eauto.
Qed.

(** The trace accounts for the slot channel. *)
Lemma run_slots {R} (env : oracle) (t : prog R) :
  forall s h r s' tr,
    run env t s h = Some (r, s', tr) ->
    chan_len (sema s') - slots_taken tr = chan_len (sema s) - slots_taken h.
Proof.
  unfold slots_taken.
  induction t as [r0|X o k IH|X o k IH]; intros s h r s' tr Hrun; cbn in Hrun.
  - injection Hrun as _ <- <-. reflexivity.
  - destruct (exec_sync o s) as [[x s1]|] eqn:E; [|discriminate].
    apply IH in Hrun. rewrite Hrun, !count_events_app. clear Hrun IH.
    destruct o; cbn in E.
    + destruct (chan_len (sema s) <? chan_cap (sema s)); injection E as <- <-; cbn; lia.
    + destruct (0 <? chan_len (sema s)); [|discriminate]. injection E as <- <-. cbn. lia.
    + injection E as <- <-. cbn. lia.
    + injection E as <- <-. cbn. lia.
  - apply IH in Hrun. rewrite Hrun, !count_events_app. clear Hrun IH.
    destruct o; cbn; lia.
Qed.

(** ** ServeConn, path by path *)

(** Walk the tree of a program: one goal for each path. *)
Ltac walk :=
  repeat first
    [ progress cbn
    | match goal with
      | |- forall _, _ => intro
      | |- exists _, _ /\ _ => eexists; split; [reflexivity|]
      | |- context [match ?x with _ => _ end] => destruct x
      end ].

Ltac in_trace := cbn; repeat first [left; reflexivity | right].

(** On every path the handler touches the shared state in this order
    only: admission, increment, release, decrement; and it ends rejected
    or having done all four. *)
Lemma ServeConn_follows (conn : net_Conn) : follows Accepted (ServeConn conn).
Proof.
  unfold ServeConn, func, ServeConn_body. walk.
  all: try (left; reflexivity).
  all: try (right; reflexivity).
Qed.


(** No path of [ServeConn] has a send on [FinishedConnChan]. *)
Lemma ServeConn_sends_no_completion (conn : net_Conn) :
  always (fun tr _ => count_events is_finished_send tr = 0%nat) (ServeConn conn) [].
Proof.
  unfold ServeConn, func, ServeConn_body. walk. all: reflexivity.
Qed.

Lemma ServeConn_never_publishes_completion (env : oracle) (conn : net_Conn) (s : Server) :
  0 <= chan_len (sema s) ->
  exists r s' tr,
    run env (ServeConn conn) s [] = Some (r, s', tr)
    /\ count_events is_finished_send tr = 0%nat.
Proof.
  intros Hlen.
  destruct (run_total env (ServeConn conn) Accepted s [] (ServeConn_follows conn) Hlen)
    as [[[r s'] tr] Hrun].
  exists r, s', tr. split; [exact Hrun|].
  exact (run_always env _ _ _ _ _ _ _ (ServeConn_sends_no_completion conn) Hrun).
Qed.

(** C1: the run of the handler on an admitted connection whose first byte
    is 4, on a server with two free slots. The handler is admitted,
    counts the connection, rejects the version, releases, decrements and
    closes; it sends nothing on [FinishedConnChan], and it calls no
    method that could. *)
Theorem ServeConn_bad_version_sends_no_completion :
  exists tr,
    run (scripted (client_script 4 (Back (Ok example_Request))))
        (ServeConn example_conn) (server_with 2 0) []
    = Some (Returned (Some (fmt_Errorf "Unsupported SOCKS version: %v" [ArgBytes [4]])),
            server_with 2 0, tr)
    /\ tr = [EvSemaSend true; EvAddInt64 1 1; EvLoadInt64 1; EvCountChanSend 1 false;
             EvRead example_conn 1 (Back ([4], None));
             EvPrintf "[ERR] socks: %v"
               [ArgError (fmt_Errorf "Unsupported SOCKS version: %v" [ArgBytes [4]])];
             EvSemaRecv; EvAddInt64 (-1) 0; EvLoadInt64 0; EvCountChanSend 0 false;
             EvClose example_conn (Back None)]
    /\ count_events is_admission tr = 1%nat
    /\ count_events is_finished_send tr = 0%nat
    /\ count_events is_handleRequest tr = 0%nat.
Proof.
  eexists. split; [reflexivity|]. repeat split.
Qed.



Local Arguments Z.ltb : simpl never.
Local Arguments Z.eqb : simpl never.
Local Arguments wrap64 : simpl never.
Local Arguments read_into : simpl never.

Lemma read_into_first (b : Z) (rest : list Z) : read_into (b :: rest) [0] = [b].
Proof.
  unfold read_into. cbn. rewrite take_0, drop_nil. reflexivity.
Qed.

(** Run [ServeConn] step by step against an environment of which some
    answers are known, splitting on the others. *)
Ltac sym_exec env :=
  repeat first
    [ progress cbn
    | rewrite read_into_first
    | match goal with
      | H : forall tr, env _ tr ?o = _ |- context [env _ ?tr ?o] => rewrite (H tr)
      | |- context [?a <? ?b] => destruct (Z.ltb_spec a b); [try lia|try lia]
      | |- context [?a =? ?b] =>
          destruct (Z.eqb_spec a b); [try congruence|try congruence]
      | |- context [match env ?X ?tr ?o with _ => _ end] =>
          let E := fresh "E" in destruct (env X tr o) eqn:E
      | |- context [match ?x with _ => _ end] => is_var x; destruct x
      end ].

(** C4: when the slot channel is full, the handler does three things and
    no more: the failed send, the log line, and the close of the
    connection (with one more log line if the close panics). It returns
    the error, leaves the server state as it was, and neither reads from
    the client, nor writes to it, nor increments the counter. *)
Theorem ServeConn_pool_full (env : oracle) (conn : net_Conn) (s : Server) :
  chan_len (sema s) = chan_cap (sema s) ->
  exists closed tail,
    let err := fmt_Errorf "Failed to handle request: exhausted" [] in
    let tr := EvSemaSend false :: EvPrintf "[ERR] socks: %v" [ArgError err]
                :: EvClose conn closed :: tail in
    run env (ServeConn conn) s [] = Some (Returned (Some err), s, tr)
    /\ count_events may_read tr = 0%nat
    /\ count_events may_write tr = 0%nat
    /\ count_events is_increment tr = 0%nat.
Proof.
  intros Hfull. unfold ServeConn, func, ServeConn_body. cbn.
  rewrite Hfull, Z.ltb_irrefl. cbn.
  destruct (env _ _ (conn_Close conn)); cbn; do 2 eexists; (split; [reflexivity|]);
    cbn; auto.
Qed.

Lemma ServeConn_pool_full_witness :
  exists closed tail,
    let err := fmt_Errorf "Failed to handle request: exhausted" [] in
    let tr := EvSemaSend false :: EvPrintf "[ERR] socks: %v" [ArgError err]
                :: EvClose example_conn closed :: tail in
    run (scripted (client_script 5 (Back (Ok example_Request))))
        (ServeConn example_conn) (server_with 2 2) []
    = Some (Returned (Some err), server_with 2 2, tr)
    /\ count_events may_read tr = 0%nat
    /\ count_events may_write tr = 0%nat
    /\ count_events is_increment tr = 0%nat.
Proof.
  apply ServeConn_pool_full. reflexivity.
Defined.

(** C5: on a connection whose first byte is [b], if [b] is not 5 the
    handler returns an error and has called neither [authenticate] nor
    [NewRequest] nor [handleRequest] nor anything that writes to the
    client; if [b] is 5 and the handler is admitted, it calls
    [authenticate]. *)
Theorem ServeConn_version_check (env : oracle) (conn : net_Conn) (s : Server)
    (b : Z) (rest : list Z) :
  0 <= chan_len (sema s) ->
  (forall tr, env _ tr (bufConn_Read conn 1) = Back (b :: rest, None)) ->
  (b <> socks5Version ->
     exists e s' tr,
       run env (ServeConn conn) s [] = Some (Returned (Some e), s', tr)
       /\ count_events is_authenticate tr = 0%nat
       /\ count_events is_NewRequest tr = 0%nat
       /\ count_events is_handleRequest tr = 0%nat
       /\ count_events may_write tr = 0%nat)
  /\ (b = socks5Version ->
      chan_len (sema s) < chan_cap (sema s) ->
      exists r s' tr,
        run env (ServeConn conn) s [] = Some (r, s', tr)
        /\ count_events is_authenticate tr = 1%nat).
Proof.
  intros Hlen Hb. split.
  - intros Hne. unfold ServeConn, func, ServeConn_body.
    sym_exec env; do 3 eexists; (split; [reflexivity|]); cbn; auto.
  - intros -> Hadm. unfold ServeConn, func, ServeConn_body.
    sym_exec env; do 3 eexists; (split; [reflexivity|]); reflexivity.
Qed.

(** A client that starts with byte 4 and one that starts with byte 5. *)
Lemma ServeConn_version_check_witness :
  ((4 <> socks5Version ->
      exists e s' tr,
        run (scripted (client_script 4 (Back (Ok example_Request))))
            (ServeConn example_conn) (server_with 2 0) []
        = Some (Returned (Some e), s', tr)
        /\ count_events is_authenticate tr = 0%nat
        /\ count_events is_NewRequest tr = 0%nat
        /\ count_events is_handleRequest tr = 0%nat
        /\ count_events may_write tr = 0%nat)
   /\ (4 = socks5Version ->
       chan_len (sema (server_with 2 0)) < chan_cap (sema (server_with 2 0)) ->
       exists r s' tr,
         run (scripted (client_script 4 (Back (Ok example_Request))))
             (ServeConn example_conn) (server_with 2 0) []
         = Some (r, s', tr)
         /\ count_events is_authenticate tr = 1%nat))
  /\ ((5 <> socks5Version ->
       exists e s' tr,
         run (scripted (client_script 5 (Back (Ok example_Request))))
             (ServeConn example_conn) (server_with 2 0) []
         = Some (Returned (Some e), s', tr)
         /\ count_events is_authenticate tr = 0%nat
         /\ count_events is_NewRequest tr = 0%nat
         /\ count_events is_handleRequest tr = 0%nat
         /\ count_events may_write tr = 0%nat)
      /\ (5 = socks5Version ->
          chan_len (sema (server_with 2 0)) < chan_cap (sema (server_with 2 0)) ->
          exists r s' tr,
            run (scripted (client_script 5 (Back (Ok example_Request))))
                (ServeConn example_conn) (server_with 2 0) []
            = Some (r, s', tr)
            /\ count_events is_authenticate tr = 1%nat)).
Proof.
  split.
  - apply (ServeConn_version_check _ example_conn (server_with 2 0) 4 []).
    + simpl. lia.
    + intros tr. reflexivity.
  - apply (ServeConn_version_check _ example_conn (server_with 2 0) 5 []).
    + simpl. lia.
    + intros tr. reflexivity.
Defined.

(** C6: on an admitted connection that passed the version check and the
    authentication, when [NewRequest] fails with the error [e]:
    [handleRequest] is never called; if [e] is the sentinel
    [unrecognizedAddrType], the handler calls [sendReply] once, with
    status [addrTypeNotSupported], right after the failed decoding, and
    when that call comes back the handler returns an error (the decode
    error wrapped when the reply was written, the write error wrapped when
    it was not); for any other [e] the handler calls [sendReply] not at
    all and returns the decode error wrapped. *)
Theorem ServeConn_request_decode_error (env : oracle) (conn : net_Conn) (s : Server)
    (rest : list Z) (ctx : AuthContext) (e : error) :
  0 <= chan_len (sema s) < chan_cap (sema s) ->
  (forall tr, env _ tr (bufConn_Read conn 1) = Back (socks5Version :: rest, None)) ->
  (forall tr, env _ tr (authenticate conn) = Back (Ok ctx)) ->
  (forall tr, env _ tr (NewRequest conn) = Back (Err e)) ->
  exists r s' tr,
    run env (ServeConn conn) s [] = Some (Returned r, s', tr)
    /\ count_events is_handleRequest tr = 0%nat
    /\ (e = unrecognizedAddrType ->
          count_events is_sendReply tr = 1%nat
          /\ exists before sent after,
               tr = before ++ EvNewRequest conn (Back (Err e))
                      :: EvSendReply conn addrTypeNotSupported None sent :: after
               /\ forall w, sent = Back w ->
                    r = Some match w with
                             | None =>
                                 fmt_Errorf "Failed to read destination address: %v"
                                   [ArgError e]
                             | Some e' =>
                                 fmt_Errorf "Failed to send reply: %v" [ArgError e']
                             end)
    /\ (e <> unrecognizedAddrType ->
          count_events is_sendReply tr = 0%nat
          /\ r = Some (fmt_Errorf "Failed to read destination address: %v" [ArgError e])).
Proof.
  intros Hlen Hb Hauth Hreq. unfold ServeConn, func, ServeConn_body.
  destruct e.
  all: sym_exec env.
  all: do 3 eexists; (split; [reflexivity|]); (split; [reflexivity|]).
  all: split; [|intros Hne; try congruence; split; reflexivity].
  all: intros He; try discriminate He; (split; [reflexivity|]).
  all: eexists [_; _; _; _; _; _], _, _; (split; [reflexivity|]).
  all: intros w [= <-]; reflexivity.
Qed.

(** A request with an address type the decoder does not know. *)
Lemma ServeConn_request_decode_error_witness :
  exists r s' tr,
    run (scripted (client_script 5 (Back (Err unrecognizedAddrType))))
        (ServeConn example_conn) (server_with 2 0) []
    = Some (Returned r, s', tr)
    /\ count_events is_handleRequest tr = 0%nat
    /\ (unrecognizedAddrType = unrecognizedAddrType ->
          count_events is_sendReply tr = 1%nat
          /\ exists before sent after,
               tr = before ++ EvNewRequest example_conn (Back (Err unrecognizedAddrType))
                      :: EvSendReply example_conn addrTypeNotSupported None sent :: after
               /\ forall w, sent = Back w ->
                    r = Some match w with
                             | None =>
                                 fmt_Errorf "Failed to read destination address: %v"
                                   [ArgError unrecognizedAddrType]
                             | Some e' =>
                                 fmt_Errorf "Failed to send reply: %v" [ArgError e']
                             end)
    /\ (unrecognizedAddrType <> unrecognizedAddrType ->
          count_events is_sendReply tr = 0%nat
          /\ r = Some (fmt_Errorf "Failed to read destination address: %v"
                         [ArgError unrecognizedAddrType])).
Proof.
  apply (ServeConn_request_decode_error _ example_conn (server_with 2 0) []
           example_AuthContext unrecognizedAddrType).
  - simpl. lia.
  - intros tr. reflexivity.
  - intros tr. reflexivity.
  - intros tr. reflexivity.
Defined.

(** ** Serve *)

Lemma Serve_loop_run (env : oracle) :
  calm env ->
  forall n s h,
    exists tr,
      run env (Serve_loop n []) s h = Some (Next tt, [], s, h ++ tr)
      /\ count_events is_accept tr = n
      /\ count_events is_log tr = count_events is_failed_accept tr
      /\ (count_events is_go tr + count_events is_failed_accept tr)%nat = n.
Proof.
  intros [Hacc Hdl]. induction n as [|n IH]; intros s h.
  - exists []. cbn. rewrite app_nil_r. auto.
  - cbn [Serve_loop]. unfold fbind at 1. rewrite run_pbind.
    unfold Serve_iteration. cbn.
    destruct (Hacc h) as [[conn|err] Ea]; rewrite Ea; cbn.
    + match goal with |- context [env _ ?tr (conn_SetDeadline ?c ?t)] =>
        destruct (Hdl tr c t) as [d Ed]; rewrite Ed end.
      cbn.
      match goal with |- context [run env (Serve_loop n []) s ?h'] =>
        destruct (IH s h') as (tr & -> & Hn & Hlog & Hgo) end.
      eexists (_ :: _ :: _ :: _ :: _ :: tr).
      split; [rewrite <- !app_assoc; reflexivity|]. cbn. repeat split; lia.
    + match goal with |- context [run env (Serve_loop n []) s ?h'] =>
        destruct (IH s h') as (tr & -> & Hn & Hlog & Hgo) end.
      eexists (_ :: _ :: tr).
      split; [rewrite <- !app_assoc; reflexivity|]. cbn. repeat split; lia.
Qed.

(** C7, amended: as long as no call of the loop panics, [Serve] is still
    in its loop after any number [n] of passes, whatever errors [Accept]
    returned, fatal or not: it has called [Accept] [n] times, logged one
    line for each failed accept, started one handler for each accepted
    connection, and is about to start pass [n + 1]. *)
Theorem Serve_never_leaves_loop (env : oracle) (s : Server) (n : nat) :
  calm env ->
  exists tr,
    run env (Serve_loop n []) s [] = Some (Next tt, [], s, tr)
    /\ count_events is_accept tr = n
    /\ count_events is_log tr = count_events is_failed_accept tr
    /\ (count_events is_go tr + count_events is_failed_accept tr)%nat = n.
Proof.
  intros Hcalm. exact (Serve_loop_run env Hcalm n s []).
Qed.

Lemma Serve_never_leaves_loop_witness :
  exists tr,
    run (scripted closed_listener) (Serve_loop 3 []) (server_with 2 0) []
    = Some (Next tt, [], server_with 2 0, tr)
    /\ count_events is_accept tr = 3%nat
    /\ count_events is_log tr = count_events is_failed_accept tr
    /\ (count_events is_go tr + count_events is_failed_accept tr)%nat = 3%nat.
Proof.
  apply Serve_never_leaves_loop.
  split; intros; eexists; reflexivity.
Defined.

Lemma closed_listener_calm : calm (scripted closed_listener).
Proof. split; intros; eexists; reflexivity. Qed.

(** C7 as stated fails: on a listener that was closed, where every
    [Accept] fails for good, there is no number of passes after which
    [Serve] has left its loop. *)
Lemma Serve_survives_closed_listener :
  ~ (exists n,
       ~ still_looping
           (run (scripted closed_listener) (Serve_loop n []) (server_with 2 0) [])).
Proof.
  intros [n Hn]. apply Hn.
  destruct (Serve_loop_run _ closed_listener_calm n (server_with 2 0) []) as (tr & -> & _).
  exact I.
Qed.

(** ** Handlers side by side: the admission bound *)

Lemma wrap64_add_l (a b : Z) : wrap64 (wrap64 a + b) = wrap64 (a + b).
Proof.
  unfold wrap64.
  replace ((a + 2 ^ 63) mod 2 ^ 64 - 2 ^ 63 + b + 2 ^ 63)
    with ((a + 2 ^ 63) mod 2 ^ 64 + b) by lia.
  rewrite Zplus_mod_idemp_l. do 2 f_equal. lia.
Qed.

Lemma wrap64_small (a : Z) : - 2 ^ 63 <= a < 2 ^ 63 -> wrap64 a = a.
Proof. intros H. unfold wrap64. rewrite Z.mod_small; lia. Qed.

Lemma in_phase_step (h : list event) (ph ph' : phase) (ev : event) :
  in_phase h ph -> phase_step ph ev = Some ph' -> in_phase (h ++ [ev]) ph'.
Proof.
  unfold in_phase. intros (Ha & Hi & Hr & Hd) Hstep.
  rewrite !existsb_app, Ha, Hi, Hr, Hd. clear Ha Hi Hr Hd.
  destruct ev; cbn in *;
    try (injection Hstep as <-; destruct ph; cbn; auto; fail).
  - destruct ph; try discriminate. injection Hstep as <-. destruct ok; cbn; auto.
  - destruct ph; try discriminate. injection Hstep as <-. cbn; auto.
  - destruct (Z.eqb_spec delta 1) as [->|H1]; cbn in *.
    + destruct ph; try discriminate. injection Hstep as <-. cbn; auto.
    + destruct (Z.eqb_spec delta (-1)) as [->|H2]; [|discriminate].
      destruct ph; try discriminate. injection Hstep as <-. cbn; auto.
Qed.

Lemma phase_step_ext {X} (o : ext_op X) (x : X) (ph : phase) :
  phase_step ph (event_of_ext o x) = Some ph.
Proof. destruct o; reflexivity. Qed.

Lemma in_phase_flags (hd : handler) (ph : phase) :
  in_phase (history hd) ph ->
  in_body hd = phase_in_body ph
  /\ counted hd = phase_counted ph
  /\ in_transit hd = phase_in_transit ph.
Proof.
  unfold in_phase, in_body, counted, in_transit. intros (-> & -> & -> & ->).
  destruct ph; cbn; auto.
Qed.

Lemma count_handlers_app (f : handler -> bool) (l1 l2 : list handler) :
  count_handlers f (l1 ++ l2) = count_handlers f l1 + count_handlers f l2.
Proof. induction l1 as [|hd l1 IH]; cbn; [reflexivity|]. rewrite IH. lia. Qed.

Lemma count_handlers_nonneg (f : handler -> bool) (l : list handler) :
  0 <= count_handlers f l.
Proof. induction l as [|hd l IH]; cbn; [lia|]. destruct (f hd); lia. Qed.

Lemma count_handlers_insert (f : handler -> bool) (l : list handler) :
  forall i hd hd',
    l !! i = Some hd ->
    count_handlers f (<[i := hd']> l) = count_handlers f l - b2z (f hd) + b2z (f hd').
Proof.
  unfold b2z.
  induction l as [|a l IH]; intros i hd hd' Hi; [discriminate|].
  destruct i as [|i]; simpl in *.
  - injection Hi as ->. lia.
  - rewrite (IH i hd hd' Hi). lia.
Qed.

(** Every step keeps the system consistent. *)
Lemma step_consistent (s0 : Server) (sys sys' : system) :
  consistent s0 sys -> step sys sys' -> consistent s0 sys'.
Proof.
  intros (Hok & Hcap & Hlen & Hle & Hcnt) Hstep.
  destruct Hstep as [sys conn|sys i h X o k x s' Hi Hex|sys i h X o k x Hi];
    unfold consistent; cbn.
  - rewrite !count_handlers_app. cbn.
    repeat split; try assumption; try lia.
    + apply Forall_app. split; [assumption|]. constructor; [|constructor].
      exists Accepted. split; [repeat split|apply ServeConn_follows].
    + rewrite Hcnt. f_equal. lia.
  - pose proof (Forall_lookup_1 _ _ _ _ Hok Hi) as (ph & Hph & Hf). cbn in Hph, Hf.
    destruct (Hf x) as (ph' & Hstep & Hf').
    pose proof (in_phase_step _ _ _ _ Hph Hstep) as Hph'.
    set (hd := {| history := h; code := Sync o k |}) in *.
    set (hd' := {| history := h ++ [event_of_sync o x]; code := k x |}) in *.
    destruct (in_phase_flags hd ph Hph) as (Eb & Ec & _).
    destruct (in_phase_flags hd' ph' Hph') as (Eb' & Ec' & _).
    rewrite !(count_handlers_insert _ _ _ hd hd' Hi), Eb, Ec, Eb', Ec'.
    split; [apply Forall_insert; [assumption|exists ph'; split; assumption]|].
    clear Hf Hf' Hph Hph' Eb Ec Eb' Ec' Hok Hi. clearbody hd hd'.
    revert k x Hex Hstep.
    destruct o; cbn; intros k x Hex Hstep.
    + destruct ph; try discriminate.
      destruct (Z.ltb_spec (chan_len (sema (server sys))) (chan_cap (sema (server sys))));
        injection Hex as <- <-; injection Hstep as <-; cbn; repeat split; try lia.
      * rewrite Hcnt. f_equal. lia.
      * rewrite Hcnt. f_equal. lia.
    + destruct ph; try discriminate. injection Hstep as <-.
      destruct (Z.ltb_spec 0 (chan_len (sema (server sys)))); [|discriminate].
      injection Hex as _ <-. cbn. repeat split; try lia.
      rewrite Hcnt. f_equal. lia.
    + injection Hex as <- <-. cbn.
      destruct (Z.eqb_spec delta 1) as [->|H1].
      * destruct ph; try discriminate. injection Hstep as <-. cbn.
        repeat split; try lia. rewrite Hcnt, wrap64_add_l. f_equal. lia.
      * destruct (Z.eqb_spec delta (-1)) as [->|H2]; [|discriminate].
        destruct ph; try discriminate. injection Hstep as <-. cbn.
        repeat split; try lia. rewrite Hcnt, wrap64_add_l. f_equal. lia.
    + injection Hex as <- <-. injection Hstep as <-.
      repeat split; try lia. rewrite Hcnt. f_equal. lia.
  - pose proof (Forall_lookup_1 _ _ _ _ Hok Hi) as (ph & Hph & Hf). cbn in Hph, Hf.
    pose proof (in_phase_step _ _ _ _ Hph (phase_step_ext o x ph)) as Hph'.
    set (hd := {| history := h; code := Ext o k |}) in *.
    set (hd' := {| history := h ++ [event_of_ext o x]; code := k x |}) in *.
    destruct (in_phase_flags hd ph Hph) as (Eb & Ec & _).
    destruct (in_phase_flags hd' ph Hph') as (Eb' & Ec' & _).
    rewrite !(count_handlers_insert _ _ _ hd hd' Hi), Eb, Ec, Eb', Ec'.
    split; [apply Forall_insert; [assumption|exists ph; split; [assumption|apply Hf]]|].
    repeat split; try lia. rewrite Hcnt. f_equal. lia.
Qed.

Lemma reachable_consistent (s0 : Server) (sys : system) :
  unused s0 -> reachable s0 sys -> consistent s0 sys.
Proof.
  intros (Hl & Hc & Hn). induction 1 as [|sys sys' _ IH Hstep].
  - unfold consistent. cbn. rewrite Hl, Hn. repeat split; auto.
  - exact (step_consistent s0 sys sys' IH Hstep).
Qed.

Lemma count_handlers_lookup (f : handler -> bool) (l : list handler) :
  forall i hd, l !! i = Some hd -> f hd = true -> 1 <= count_handlers f l.
Proof.
  induction l as [|a l IH]; intros i hd Hi Hf; [discriminate|].
  pose proof (count_handlers_nonneg f l).
  destruct i as [|i]; simpl in *.
  - injection Hi as ->. rewrite Hf. lia.
  - specialize (IH i hd Hi Hf). destruct (f a); lia.
Qed.

(** X13: no handler ever blocks on the shared state: when a handler
    comes to its release, its own token is in the slot channel. *)
Lemma handlers_never_block (s0 : Server) (sys : system) (i : nat) (h : list event)
    X (o : sync_op X) (k : X -> prog exit) :
  unused s0 ->
  reachable s0 sys ->
  handlers sys !! i = Some {| history := h; code := Sync o k |} ->
  is_Some (exec_sync o (server sys)).
Proof.
  intros Hun Hreach Hi.
  destruct (reachable_consistent s0 sys Hun Hreach) as (Hok & _ & Hlen & _ & _).
  pose proof (Forall_lookup_1 _ _ _ _ Hok Hi) as (ph & Hph & Hf). cbn in Hph, Hf.
  destruct (in_phase_flags {| history := h; code := Sync o k |} ph Hph) as (Eb & _ & _).
  pose proof (count_handlers_lookup in_body _ _ _ Hi) as Hone.
  clear Hok Hi Hph. revert k Hf Eb Hone.
  destruct o; cbn; intros k Hf Eb Hone; eauto.
  - destruct (_ <? _); eauto.
  - destruct (Hf tt) as (ph' & Hstep & _).
    destruct ph; try discriminate. cbn in Eb. specialize (Hone Eb).
    destruct (Z.ltb_spec 0 (chan_len (sema (server sys)))); [eauto|lia].
Qed.

(** At a quiescent point the counted handlers are the handlers in their
    body. *)
Lemma settled_counts (l : list handler) :
  Forall handler_ok l ->
  count_handlers in_transit l = 0 ->
  count_handlers counted l = count_handlers in_body l.
Proof.
  induction 1 as [|hd l (ph & Hph & _) _ IH]; cbn; [reflexivity|].
  destruct (in_phase_flags hd ph Hph) as (-> & -> & ->).
  pose proof (count_handlers_nonneg in_transit l).
  destruct ph; cbn; intros; try lia; rewrite IH; lia.
Qed.

(** C2, amended: the slot channel of the server [New] returns has
    capacity exactly the defaulted ConnLimit; in every state the system
    can reach, the handlers that passed admission and did not release yet
    are as many as the tokens in the slot channel, hence at most
    ConnLimit; the counter is the number of handlers whose increment is
    not undone yet; and at every quiescent point the counter equals the
    number of handlers that passed admission and did not release yet. *)
Theorem admitted_handlers_bounded GetCode (p : loc) (h : gmap loc Config) (c : Config)
    (s0 : Server) (e : option error) :
  h !! p = Some c ->
  is_int (ConnLimit c) ->
  (New GetCode (Some p) h).1 = Back (s0, e) ->
  sema s0 = {| chan_cap := ConnLimit (defaults c); chan_len := 0 |}
  /\ forall sys,
       reachable s0 sys ->
       chan_cap (sema (server sys)) = ConnLimit (defaults c)
       /\ chan_len (sema (server sys)) = count_handlers in_body (handlers sys)
       /\ count_handlers in_body (handlers sys) <= ConnLimit (defaults c)
       /\ ConnCount (server sys) = wrap64 (count_handlers counted (handlers sys))
       /\ (quiescent sys ->
             ConnCount (server sys) = count_handlers in_body (handlers sys)).
Proof.
  intros Hp Hint Hnew.
  destruct (New_unused GetCode p h c s0 e Hp Hnew) as (Hsema & Hun).
  split; [exact Hsema|]. intros sys Hreach.
  destruct (reachable_consistent s0 sys Hun Hreach) as (Hok & Hcap & Hlen & Hle & Hcnt).
  rewrite Hsema in Hcap. cbn in Hcap.
  repeat split; try congruence; try lia.
  intros Hq. rewrite Hcnt, (settled_counts _ Hok Hq).
  apply wrap64_small.
  pose proof (count_handlers_nonneg in_body (handlers sys)).
  assert (ConnLimit (defaults c) < 2 ^ 63).
  { rewrite defaults_ConnLimit. unfold is_int in Hint. destruct (ConnLimit c =? 0); lia. }
  lia.
Qed.

Lemma admitted_handlers_bounded_witness :
  sema (server_with 50000 0)
    = {| chan_cap := ConnLimit (defaults zero_Config); chan_len := 0 |}
  /\ forall sys,
       reachable (server_with 50000 0) sys ->
       chan_cap (sema (server sys)) = ConnLimit (defaults zero_Config)
       /\ chan_len (sema (server sys)) = count_handlers in_body (handlers sys)
       /\ count_handlers in_body (handlers sys) <= ConnLimit (defaults zero_Config)
       /\ ConnCount (server sys) = wrap64 (count_handlers counted (handlers sys))
       /\ (quiescent sys ->
             ConnCount (server sys) = count_handlers in_body (handlers sys)).
Proof.
  apply (admitted_handlers_bounded example_GetCode 1%positive
           {[ 1%positive := zero_Config ]} zero_Config (server_with 50000 0) None).
  - reflexivity.
  - unfold is_int. simpl. lia.
  - reflexivity.
Defined.

(** C2 as stated fails: on the server [New] makes of the zero Config,
    once the first handler has sent its token into the slot channel and
    has not incremented the counter yet, one connection has passed
    admission and the counter is still 0. *)
Lemma counter_lags_behind_admission :
  (New example_GetCode (Some 1%positive) {[ 1%positive := zero_Config ]}).1
    = Back (server_with 50000 0, None)
  /\ ~ (forall sys,
          reachable (server_with 50000 0) sys ->
          ConnCount (server sys) = count_handlers in_body (handlers sys)).
Proof.
  split; [reflexivity|]. intros H.
  assert (Hex : exists sys,
            reachable (server_with 50000 0) sys
            /\ ConnCount (server sys) = 0
            /\ count_handlers in_body (handlers sys) = 1).
  { eexists. split.
    - eapply reachable_step.
      + eapply reachable_step; [apply reachable_start|].
        apply (step_go _ example_conn).
      + eapply (step_sync _ 0%nat [] bool sema_TrySend _ true); cbn; reflexivity.
    - cbn. split; reflexivity. }
  destruct Hex as (sys & Hreach & Hc & Hb).
  specialize (H sys Hreach). lia.
Qed.

(** * Further properties *)

(** ** More on New *)

Lemma defaults_filled (c : Config) :
  AuthMethods (defaults c) <> []
  /\ is_Some (Resolver (defaults c))
  /\ is_Some (Rules (defaults c))
  /\ is_Some (Logger (defaults c))
  /\ ConnLimit (defaults c) <> 0.
Proof.
  rewrite defaults_ConnLimit, defaults_AuthMethods.
  unfold defaults, default_ConnLimit, default_Logger, default_Rules, default_Resolver,
    default_AuthMethods.
  repeat split.
  - repeat case_match; cbn; congruence.
  - repeat case_match; cbn in *; eauto.
  - repeat case_match; cbn in *; eauto.
  - repeat case_match; cbn in *; eauto.
  - destruct (Z.eqb_spec (ConnLimit c) 0); lia.
Qed.

Lemma defaults_idempotent (c : Config) : defaults (defaults c) = defaults c.
Proof.
  destruct (defaults_filled c) as (Ha & [r Hr] & [u Hu] & [l Hl] & Hc).
  set (d := defaults c) in *. unfold defaults.
  assert (E1 : default_AuthMethods d = d).
  { unfold default_AuthMethods. destruct (AuthMethods d); [contradiction|reflexivity]. }
  assert (E2 : default_Resolver d = d) by (unfold default_Resolver; rewrite Hr; reflexivity).
  assert (E3 : default_Rules d = d) by (unfold default_Rules; rewrite Hu; reflexivity).
  assert (E4 : default_Logger d = d) by (unfold default_Logger; rewrite Hl; reflexivity).
  assert (E5 : default_ConnLimit d = d).
  { unfold default_ConnLimit. destruct (Z.eqb_spec (ConnLimit d) 0); [contradiction|reflexivity]. }
  rewrite E1, E2, E3, E4, E5. reflexivity.
Qed.

Lemma register_authMethods_cases GetCode (l : list (option Authenticator)) :
  forall m,
    (Forall is_Some l /\ exists m', register_authMethods GetCode l m = Back m')
    \/ (~ Forall is_Some l /\ register_authMethods GetCode l m = Panics nilDereference).
Proof.
  induction l as [|[a|] l IH]; intros m; cbn.
  - left. split; [constructor|eauto].
  - destruct (IH (<[GetCode a := a]> m)) as [[HF He]|[Hn He]].
    + left. split; [constructor; eauto|exact He].
    + right. split; [|exact He]. intros HF. apply Hn. inversion HF; assumption.
  - right. split; [|reflexivity]. intros HF. inversion HF as [|x l' Hx Hl]; subst.
    destruct Hx as [y Hy]. discriminate.
Qed.

Lemma default_AuthMethods_nil_iff (c : Config) :
  Forall is_Some (AuthMethods (default_AuthMethods c)) <-> Forall is_Some (AuthMethods c).
Proof.
  split; [|apply default_AuthMethods_not_nil].
  unfold default_AuthMethods. destruct (AuthMethods c) eqn:E; [constructor|].
  rewrite E. auto.
Qed.

(** X1: [New] returns a server, with a nil error, exactly when the
    connection cap is not negative and no entry of the method list is nil;
    it panics otherwise, and it never returns an error that is not nil. *)
Theorem New_returns_iff GetCode (p : loc) (h : gmap loc Config) (c : Config) :
  h !! p = Some c ->
  ((0 <= ConnLimit c /\ Forall is_Some (AuthMethods c))
     <-> exists s, (New GetCode (Some p) h).1 = Back (s, None))
  /\ (forall s e, (New GetCode (Some p) h).1 = Back (s, e) -> e = None)
  /\ (ConnLimit c < 0 ->
        (New GetCode (Some p) h).1 = Panics (RuntimeError "makechan: size out of range"))
  /\ (0 <= ConnLimit c -> ~ Forall is_Some (AuthMethods c) ->
        (New GetCode (Some p) h).1 = Panics nilDereference).
Proof.
  intros Hp. rewrite (New_result GetCode p h c Hp).
  rewrite defaults_ConnLimit, defaults_AuthMethods.
  assert (Hneg : ((if ConnLimit c =? 0 then 50000 else ConnLimit c) <? 0) = (ConnLimit c <? 0)).
  { destruct (Z.eqb_spec (ConnLimit c) 0) as [->|]; reflexivity. }
  rewrite Hneg. clear Hneg.
  pose proof (default_AuthMethods_nil_iff c) as Hdef.
  destruct (Z.ltb_spec (ConnLimit c) 0) as [Hlt|Hge].
  - split; [split|].
    + intros [? _]. lia.
    + intros [? ?]. discriminate.
    + split; [discriminate|]. split; [reflexivity|]. lia.
  - destruct (register_authMethods_cases GetCode (AuthMethods (default_AuthMethods c)) ∅)
      as [[HF [m ->]]|[Hn ->]].
    + split; [split; eauto|]. 
      * intros _. split; [assumption|]. apply Hdef. assumption.
      * split; [intros s e [= <- <-]; reflexivity|]. split; [lia|].
        intros _ Hnn. exfalso. apply Hnn, Hdef, HF.
    + split; [split|].
      * intros [_ HF]. exfalso. apply Hn, Hdef, HF.
      * intros [? ?]. discriminate.
      * split; [discriminate|]. split; [lia|]. reflexivity.
Qed.

Lemma New_returns_iff_witness :
  ((0 <= ConnLimit custom_Config /\ Forall is_Some (AuthMethods custom_Config))
     <-> exists s,
           (New example_GetCode (Some 1%positive) {[ 1%positive := custom_Config ]}).1
           = Back (s, None))
  /\ (forall s e,
        (New example_GetCode (Some 1%positive) {[ 1%positive := custom_Config ]}).1
        = Back (s, e) -> e = None)
  /\ (ConnLimit custom_Config < 0 ->
        (New example_GetCode (Some 1%positive) {[ 1%positive := custom_Config ]}).1
        = Panics (RuntimeError "makechan: size out of range"))
  /\ (0 <= ConnLimit custom_Config -> ~ Forall is_Some (AuthMethods custom_Config) ->
        (New example_GetCode (Some 1%positive) {[ 1%positive := custom_Config ]}).1
        = Panics nilDereference).
Proof.
  apply (New_returns_iff example_GetCode 1%positive {[ 1%positive := custom_Config ]}
           custom_Config).
  reflexivity.
Defined.

(** X2: any server [New] returns has a pool of at least one slot: a cap of
    0 becomes 50000 and a negative cap panics, so no Config makes a server
    that rejects every connection. *)
Theorem New_pool_has_a_slot GetCode (p : loc) (h : gmap loc Config) (c : Config)
    (s : Server) (e : option error) :
  h !! p = Some c ->
  (New GetCode (Some p) h).1 = Back (s, e) ->
  1 <= chan_cap (sema s)
  /\ chan_cap (sema s) = (if ConnLimit c =? 0 then 50000 else ConnLimit c)
  /\ chan_len (sema s) = 0
  /\ ConnCount s = 0.
Proof.
  intros Hp. rewrite (New_result GetCode p h c Hp), defaults_ConnLimit.
  destruct (Z.ltb_spec (if ConnLimit c =? 0 then 50000 else ConnLimit c) 0) as [|Hge];
    [discriminate|].
  destruct (register_authMethods _ _ _); [|discriminate].
  intros [= <- _]. cbn. repeat split.
  destruct (Z.eqb_spec (ConnLimit c) 0); lia.
Qed.

Lemma New_pool_has_a_slot_witness :
  1 <= chan_cap (sema (server_with 50000 0))
  /\ chan_cap (sema (server_with 50000 0))
     = (if ConnLimit zero_Config =? 0 then 50000 else ConnLimit zero_Config)
  /\ chan_len (sema (server_with 50000 0)) = 0
  /\ ConnCount (server_with 50000 0) = 0.
Proof.
  apply (New_pool_has_a_slot example_GetCode 1%positive {[ 1%positive := zero_Config ]}
           zero_Config (server_with 50000 0) None); reflexivity.
Defined.

(** X3: [New] called again on the same Config changes nothing in it: the
    defaults are written once. *)
Theorem New_twice_same_Config GetCode (p : loc) (h : gmap loc Config) (c : Config) :
  h !! p = Some c ->
  (New GetCode (Some p) (New GetCode (Some p) h).2).2 = (New GetCode (Some p) h).2.
Proof.
  intros Hp. rewrite (New_store GetCode p h c Hp).
  rewrite (New_store GetCode p _ (defaults c) (lookup_insert_eq _ _ _)).
  rewrite defaults_idempotent. apply insert_insert_eq.
Qed.

Lemma New_twice_same_Config_witness :
  (New example_GetCode (Some 1%positive)
     (New example_GetCode (Some 1%positive) {[ 1%positive := zero_Config ]}).2).2
  = (New example_GetCode (Some 1%positive) {[ 1%positive := zero_Config ]}).2.
Proof.
  apply (New_twice_same_Config example_GetCode 1%positive {[ 1%positive := zero_Config ]}
           zero_Config).
  reflexivity.
Defined.

Lemma register_authMethods_lookup GetCode (l : list (option Authenticator)) :
  forall m m',
    register_authMethods GetCode l m = Back m' ->
    forall k,
      m' !! k = match last (filter (fun a => GetCode a = k) (omap id l)) with
                | Some a => Some a
                | None => m !! k
                end.
Proof.
  induction l as [|[a|] l IH]; intros m m' Hreg k; cbn in Hreg.
  - injection Hreg as <-. reflexivity.
  - rewrite (IH _ _ Hreg k).
    change (omap id (Some a :: l)) with (a :: omap id l). rewrite filter_cons.
    destruct (decide (GetCode a = k)) as [<-|Hne].
    + rewrite last_cons. destruct (last _); [reflexivity|]. apply lookup_insert_eq.
    + destruct (last _); [reflexivity|]. apply lookup_insert_ne. assumption.
  - discriminate.
Qed.

(** X4: the method table of the server [New] returns maps a method code
    to the last authenticator of the (defaulted) method list that has this
    code, and to nothing when the list has none: an authenticator later in
    the list replaces an earlier one with the same code. *)
Theorem New_authMethods_last_wins GetCode (p : loc) (h : gmap loc Config) (c : Config)
    (s : Server) (e : option error) (k : Z) :
  h !! p = Some c ->
  (New GetCode (Some p) h).1 = Back (s, e) ->
  authMethods s !! k
  = last (filter (fun a => GetCode a = k) (omap id (AuthMethods (defaults c)))).
Proof.
  intros Hp. rewrite (New_result GetCode p h c Hp).
  destruct (_ <? _); [discriminate|].
  destruct (register_authMethods _ _ _) as [m|] eqn:Hreg; [|discriminate].
  intros [= <- _]. cbn.
  rewrite (register_authMethods_lookup GetCode _ _ _ Hreg k), lookup_empty.
  destruct (last _); reflexivity.
Qed.

(** Two authenticators with code 0: the second one is in the table. *)
Lemma New_authMethods_last_wins_witness :
  authMethods (server_with 2 0) !! 0
  = last (filter (fun a => example_GetCode a = 0)
            (omap id (AuthMethods (defaults duplicate_Config)))).
Proof.
  apply (New_authMethods_last_wins example_GetCode 1%positive
           {[ 1%positive := duplicate_Config ]} duplicate_Config (server_with 2 0) None 0);
    reflexivity.
Defined.

(** ** More on ServeConn *)

(** What holds on every path holds of the run, and the run exists. *)
Lemma ServeConn_run_always (env : oracle) (conn : net_Conn) (s : Server)
    (P : list event -> exit -> Prop) :
  0 <= chan_len (sema s) ->
  always P (ServeConn conn) [] ->
  exists r s' tr, run env (ServeConn conn) s [] = Some (r, s', tr) /\ P tr r.
Proof.
  intros Hlen HP.
  destruct (run_total env (ServeConn conn) Accepted s [] (ServeConn_follows conn) Hlen)
    as [[[r s'] tr] Hrun].
  exists r, s', tr. split; [exact Hrun|].
  exact (run_always env P _ _ _ _ _ _ HP Hrun).
Qed.

(** X5: on every path, rejection and panic included, the handler closes
    the connection exactly once, and after the close it does nothing but
    log the panic it recovered, if there was one: the slot is released and
    the counter decremented before the connection is closed. *)
Theorem ServeConn_closes_once_at_the_end (env : oracle) (conn : net_Conn) (s : Server) :
  0 <= chan_len (sema s) ->
  exists r s' tr,
    run env (ServeConn conn) s [] = Some (r, s', tr)
    /\ count_events is_close tr = 1%nat
    /\ (after_first is_close tr = []
        \/ exists v, after_first is_close tr = [panic_log v]).
Proof.
  intros Hlen. apply (ServeConn_run_always env conn s); [exact Hlen|].
  unfold ServeConn, func, ServeConn_body. walk.
  all: split; [reflexivity|].
  all: first [left; reflexivity | right; eexists; reflexivity].
Qed.

Lemma ServeConn_closes_once_at_the_end_witness :
  exists r s' tr,
    run (scripted (client_script 5 (Back (Ok example_Request))))
        (ServeConn example_conn) (server_with 2 0) []
    = Some (r, s', tr)
    /\ count_events is_close tr = 1%nat
    /\ (after_first is_close tr = []
        \/ exists v, after_first is_close tr = [panic_log v]).
Proof.
  apply ServeConn_closes_once_at_the_end. simpl. lia.
Defined.



Ltac split_In H :=
  cbn in H;
  repeat (destruct H as [H|H]; [try discriminate H|]);
  try contradiction.

(** X7: [handleRequest] is called at most once, and only with the request
    that [NewRequest] decoded, after [authenticate] succeeded, with the
    authentication context attached and the TCP peer address filled in. *)
Theorem ServeConn_handleRequest_argument (env : oracle) (conn : net_Conn) (s : Server) :
  0 <= chan_len (sema s) ->
  exists r s' tr,
    run env (ServeConn conn) s [] = Some (r, s', tr)
    /\ (count_events is_handleRequest tr <= 1)%nat
    /\ forall req c ans,
         In (EvHandleRequest req c ans) tr ->
         c = conn
         /\ exists ctx q,
              In (EvAuthenticate conn (Back (Ok ctx))) tr
              /\ In (EvNewRequest conn (Back (Ok q))) tr
              /\ req = request_for conn ctx q.
Proof.
  intros Hlen. apply (ServeConn_run_always env conn s); [exact Hlen|].
  destruct conn as [id [ip port|network text]].
  all: unfold ServeConn, func, ServeConn_body, request_for; walk.
  all: split; [lia|].
  all: intros req c ans Hin; split_In Hin.
  all: injection Hin as <- <- <-; split; [reflexivity|].
  all: do 2 eexists; split; [in_trace|split; [in_trace|reflexivity]].
Qed.

Lemma ServeConn_handleRequest_argument_witness :
  exists r s' tr,
    run (scripted (client_script 5 (Back (Ok example_Request))))
        (ServeConn example_conn) (server_with 2 0) []
    = Some (r, s', tr)
    /\ (count_events is_handleRequest tr <= 1)%nat
    /\ forall req c ans,
         In (EvHandleRequest req c ans) tr ->
         c = example_conn
         /\ exists ctx q,
              In (EvAuthenticate example_conn (Back (Ok ctx))) tr
              /\ In (EvNewRequest example_conn (Back (Ok q))) tr
              /\ req = request_for example_conn ctx q.
Proof.
  apply ServeConn_handleRequest_argument. simpl. lia.
Defined.

Lemma read_into_nothing (buf : list Z) : read_into [] buf = buf.
Proof. unfold read_into. rewrite take_nil. reflexivity. Qed.

(** [sym_exec] for a read that delivered nothing. *)
Ltac sym_exec_empty env :=
  repeat first
    [ progress cbn
    | rewrite read_into_nothing
    | match goal with
      | H : forall tr, env _ tr ?o = _ |- context [env _ ?tr ?o] => rewrite (H tr)
      | |- context [?a <? ?b] => destruct (Z.ltb_spec a b); [try lia|try lia]
      | |- context [?a =? ?b] =>
          destruct (Z.eqb_spec a b); [try discriminate|try congruence]
      | |- context [match env ?X ?tr ?o with _ => _ end] =>
          let E := fresh "E" in destruct (env X tr o) eqn:E
      end ].

(** X8: a read that delivers no byte and no error leaves the version
    buffer at 0: the admitted handler rejects the connection as version 0,
    as it does any version other than 5, and does not authenticate. *)
Theorem ServeConn_empty_read (env : oracle) (conn : net_Conn) (s : Server) :
  0 <= chan_len (sema s) < chan_cap (sema s) ->
  (forall tr, env _ tr (bufConn_Read conn 1) = Back ([], None)) ->
  exists s' tr,
    run env (ServeConn conn) s []
    = Some (Returned (Some (fmt_Errorf "Unsupported SOCKS version: %v" [ArgBytes [0]])),
            s', tr)
    /\ In (EvPrintf "[ERR] socks: %v"
             [ArgError (fmt_Errorf "Unsupported SOCKS version: %v" [ArgBytes [0]])]) tr
    /\ count_events is_authenticate tr = 0%nat.
Proof.
  intros Hlen Hb. unfold ServeConn, func, ServeConn_body.
  sym_exec_empty env; do 2 eexists; (split; [reflexivity|]); (split; [in_trace|reflexivity]).
Qed.

Lemma ServeConn_empty_read_witness :
  exists s' tr,
    run (scripted {| on_ConnCountChan := false;
                     on_Close := Back None;
                     on_Read := Back ([], None);
                     on_authenticate := Back (Ok example_AuthContext);
                     on_NewRequest := Back (Ok example_Request);
                     on_sendReply := Back None;
                     on_handleRequest := Back None;
                     on_Accept := Back (Ok example_conn) |})
        (ServeConn example_conn) (server_with 2 0) []
    = Some (Returned (Some (fmt_Errorf "Unsupported SOCKS version: %v" [ArgBytes [0]])),
            s', tr)
    /\ In (EvPrintf "[ERR] socks: %v"
             [ArgError (fmt_Errorf "Unsupported SOCKS version: %v" [ArgBytes [0]])]) tr
    /\ count_events is_authenticate tr = 0%nat.
Proof.
  apply ServeConn_empty_read.
  - simpl. lia.
  - intros tr. reflexivity.
Defined.



(** X10: when authentication fails, the admitted handler logs and returns
    the error wrapped as "Failed to authenticate", and neither decodes a
    request, nor writes a reply of its own, nor executes a command. *)
Theorem ServeConn_authenticate_error (env : oracle) (conn : net_Conn) (s : Server)
    (rest : list Z) (err : error) :
  0 <= chan_len (sema s) < chan_cap (sema s) ->
  (forall tr, env _ tr (bufConn_Read conn 1) = Back (socks5Version :: rest, None)) ->
  (forall tr, env _ tr (authenticate conn) = Back (Err err)) ->
  exists s' tr,
    let wrapped := fmt_Errorf "Failed to authenticate: %v" [ArgError err] in
    run env (ServeConn conn) s [] = Some (Returned (Some wrapped), s', tr)
    /\ In (EvPrintf "[ERR] socks: %v" [ArgError wrapped]) tr
    /\ count_events is_NewRequest tr = 0%nat
    /\ count_events is_sendReply tr = 0%nat
    /\ count_events is_handleRequest tr = 0%nat.
Proof.
  intros Hlen Hb Ha. unfold ServeConn, func, ServeConn_body.
  sym_exec env; do 2 eexists; (split; [reflexivity|]); (split; [in_trace|]);
    repeat split.
Qed.

Lemma ServeConn_authenticate_error_witness :
  exists s' tr,
    let wrapped := fmt_Errorf "Failed to authenticate: %v"
                     [ArgError (ExternalError "no acceptable methods")] in
    run (scripted {| on_ConnCountChan := false;
                     on_Close := Back None;
                     on_Read := Back ([5], None);
                     on_authenticate := Back (Err (ExternalError "no acceptable methods"));
                     on_NewRequest := Back (Ok example_Request);
                     on_sendReply := Back None;
                     on_handleRequest := Back None;
                     on_Accept := Back (Ok example_conn) |})
        (ServeConn example_conn) (server_with 2 0) []
    = Some (Returned (Some wrapped), s', tr)
    /\ In (EvPrintf "[ERR] socks: %v" [ArgError wrapped]) tr
    /\ count_events is_NewRequest tr = 0%nat
    /\ count_events is_sendReply tr = 0%nat
    /\ count_events is_handleRequest tr = 0%nat.
Proof.
  apply (ServeConn_authenticate_error _ example_conn (server_with 2 0) []
           (ExternalError "no acceptable methods")).
  - simpl. lia.
  - intros tr. reflexivity.
  - intros tr. reflexivity.
Defined.

(** X11: every error the handler returns was logged before, except the
    errors of the request decoding: when [NewRequest] fails, the handler
    returns without any log line, unless it recovers a panic. *)
Theorem ServeConn_logs_its_errors (env : oracle) (conn : net_Conn) (s : Server) :
  0 <= chan_len (sema s) ->
  exists r s' tr,
    run env (ServeConn conn) s [] = Some (r, s', tr)
    /\ (forall e, r = Returned (Some e) ->
          existsb is_failed_decode tr = false ->
          In (EvPrintf "[ERR] socks: %v" [ArgError e]) tr
          \/ In (EvPrintf "[ERR] socks: Failed to get version byte: %v" [ArgError e]) tr)
    /\ (existsb is_failed_decode tr = true ->
        last_panic tr = None ->
        count_events is_log tr = 0%nat).
Proof.
  intros Hlen. apply (ServeConn_run_always env conn s); [exact Hlen|].
  unfold ServeConn, func, ServeConn_body. walk.
  all: split;
    [ let e := fresh "e" in let He := fresh "He" in let Hd := fresh "Hd" in
      intros e He Hd; try discriminate Hd; try discriminate He;
      injection He as <-;
      first [left; solve [in_trace] | right; solve [in_trace]]
    | let Hd := fresh "Hd" in let Hp := fresh "Hp" in
      intros Hd Hp; try discriminate Hd; try discriminate Hp; reflexivity ].
Qed.

Lemma ServeConn_logs_its_errors_witness :
  exists r s' tr,
    run (scripted (client_script 5 (Back (Err (ExternalError "short read")))))
        (ServeConn example_conn) (server_with 2 0) []
    = Some (r, s', tr)
    /\ (forall e, r = Returned (Some e) ->
          existsb is_failed_decode tr = false ->
          In (EvPrintf "[ERR] socks: %v" [ArgError e]) tr
          \/ In (EvPrintf "[ERR] socks: Failed to get version byte: %v" [ArgError e]) tr)
    /\ (existsb is_failed_decode tr = true ->
        last_panic tr = None ->
        count_events is_log tr = 0%nat).
Proof.
  apply ServeConn_logs_its_errors. simpl. lia.
Defined.

(** ** The server state across a run *)

Lemma counter_delta_app (l1 l2 : list event) :
  counter_delta (l1 ++ l2) = counter_delta l1 + counter_delta l2.
Proof.
  induction l1 as [|ev l1 IH]; cbn; [reflexivity|]. destruct ev; rewrite ?IH; lia.
Qed.

Lemma wrap64_range (z : Z) : is_int64 (wrap64 z).
Proof.
  unfold is_int64, wrap64.
  pose proof (Z.mod_pos_bound (z + 2 ^ 63) (2 ^ 64) ltac:(lia)). lia.
Qed.

(** A run changes nothing of the server but the length of the slot
    channel and the counter; the counter stays an [int64] and moves by the
    sum of the deltas of the trace. *)
Lemma run_server {R} (env : oracle) (t : prog R) :
  forall s h r s' tr,
    run env t s h = Some (r, s', tr) ->
    config s' = config s
    /\ authMethods s' = authMethods s
    /\ ConnCountChan s' = ConnCountChan s
    /\ FinishedConnChan s' = FinishedConnChan s
    /\ chan_cap (sema s') = chan_cap (sema s)
    /\ (is_int64 (ConnCount s) -> is_int64 (ConnCount s'))
    /\ wrap64 (ConnCount s' - counter_delta tr) = wrap64 (ConnCount s - counter_delta h).
Proof.
  induction t as [r0|X o k IH|X o k IH]; intros s h r s' tr Hrun; cbn in Hrun.
  - injection Hrun as _ <- <-. repeat apply conj; auto.
  - destruct (exec_sync o s) as [[x s1]|] eqn:E; [|discriminate].
    apply IH in Hrun. destruct Hrun as (H1 & H2 & H3 & H4 & H5 & H6 & H7).
    rewrite H1, H2, H3, H4, H5, H7, counter_delta_app. clear H1 H2 H3 H4 H5 H7 IH.
    destruct o; cbn in E.
    + destruct (chan_len (sema s) <? chan_cap (sema s)); injection E as <- <-;
        cbn in *; rewrite Z.add_0_r; repeat apply conj; auto.
    + destruct (0 <? chan_len (sema s)); [|discriminate]. injection E as <- <-.
      cbn in *. rewrite Z.add_0_r. repeat apply conj; auto.
    + injection E as <- <-. cbn in *. repeat apply conj; auto.
      * intros _. apply H6, wrap64_range.
      * rewrite Z.add_0_r.
        replace (wrap64 (ConnCount s + delta) - (counter_delta h + delta))
          with (wrap64 (ConnCount s + delta) + - (counter_delta h + delta)) by lia.
        rewrite wrap64_add_l. f_equal. lia.
    + injection E as <- <-. cbn in *. rewrite Z.add_0_r. repeat apply conj; auto.
  - apply IH in Hrun. destruct Hrun as (H1 & H2 & H3 & H4 & H5 & H6 & H7).
    rewrite H1, H2, H3, H4, H5, H7, counter_delta_app. clear H1 H2 H3 H4 H5 H7 IH.
    repeat apply conj; auto. f_equal. destruct o; cbn; lia.
Qed.

Lemma ServeConn_balanced (conn : net_Conn) :
  always (fun tr _ => counter_delta tr = 0 /\ slots_taken tr = 0) (ServeConn conn) [].
Proof.
  unfold ServeConn, func, ServeConn_body. walk. all: split; reflexivity.
Qed.

(** X12: a handler that runs alone leaves the server exactly as it found
    it, on every path: the slot channel, the counter and everything
    else. *)
Theorem ServeConn_restores_server (env : oracle) (conn : net_Conn) (s : Server) :
  0 <= chan_len (sema s) ->
  is_int64 (ConnCount s) ->
  exists r tr, run env (ServeConn conn) s [] = Some (r, s, tr).
Proof.
  intros Hlen Hint.
  destruct (ServeConn_run_always env conn s _ Hlen (ServeConn_balanced conn))
    as (r & s' & tr & Hrun & Hd & Hs).
  exists r, tr. rewrite Hrun. do 3 f_equal.
  destruct (run_server env _ _ _ _ _ _ Hrun) as (H1 & H2 & H3 & H4 & H5 & H6 & H7).
  pose proof (run_slots env _ _ _ _ _ _ Hrun) as H8.
  rewrite Hs in H8. unfold slots_taken in H8. cbn in H8.
  rewrite Hd in H7. cbn in H7. rewrite !Z.sub_0_r in H7.
  rewrite !wrap64_small in H7 by (try apply H6; exact Hint).
  destruct s' as [c' a' [cap' len'] cc' n' f'], s as [c a [cap len] cc n f].
  cbn in *. subst. f_equal. f_equal. lia.
Qed.

Lemma ServeConn_restores_server_witness :
  exists r tr,
    run (scripted (client_script 5 (Back (Ok example_Request))))
        (ServeConn example_conn) (server_with 2 1) []
    = Some (r, server_with 2 1, tr).
Proof.
  apply ServeConn_restores_server.
  - simpl. lia.
  - unfold is_int64. simpl. lia.
Defined.

(** X20: a handler offers the count on [ConnCountChan] twice when it is
    admitted, once after its increment and once after its decrement, and
    never when it is rejected; what it offers is what it loaded from the
    counter just before, whether or not a receiver took the first offer. *)
Theorem ServeConn_offers_count_twice (env : oracle) (conn : net_Conn) (s : Server) :
  0 <= chan_len (sema s) ->
  exists r s' tr,
    run env (ServeConn conn) s [] = Some (r, s', tr)
    /\ count_events is_count_send tr = (2 * count_events is_admission tr)%nat
    /\ counts_offered tr = counts_loaded tr.
Proof.
  intros Hlen. apply (ServeConn_run_always env conn s); [exact Hlen|].
  unfold ServeConn, func, ServeConn_body. walk. all: split; reflexivity.
Qed.

Lemma ServeConn_offers_count_twice_witness :
  exists r s' tr,
    run (scripted (client_script 5 (Back (Ok example_Request))))
        (ServeConn example_conn) (server_with 2 0) []
    = Some (r, s', tr)
    /\ count_events is_count_send tr = (2 * count_events is_admission tr)%nat
    /\ counts_offered tr = counts_loaded tr.
Proof.
  apply ServeConn_offers_count_twice. simpl. lia.
Defined.

(** ** More on handlers side by side *)

Lemma act_step (env : oracle) (sys sys' : system) (a : action) :
  act env sys a = Some sys' -> step sys sys'.
Proof.
  destruct a as [conn|i]; cbn.
  - intros [= <-]. apply step_go.
  - destruct (handlers sys !! i) as [[h t]|] eqn:Hi; [|discriminate].
    unfold handler_step. cbn.
    destruct t as [r|X o k|X o k]; [discriminate| |].
    + destruct (exec_sync o (server sys)) as [[x s']|] eqn:E; [|discriminate].
      intros [= <-]. exact (step_sync sys i h X o k x s' Hi E).
    + intros [= <-]. exact (step_ext sys i h X o k _ Hi).
Qed.

(** Every schedule the scheduler can run is a run of the system. *)
Lemma schedule_reachable (env : oracle) (s0 : Server) (l : list action) :
  forall sys sys',
    reachable s0 sys -> schedule env sys l = Some sys' -> reachable s0 sys'.
Proof.
  induction l as [|a l IH]; intros sys sys' Hr; cbn.
  - intros [= <-]. exact Hr.
  - destruct (act env sys a) as [sys1|] eqn:E; [|discriminate].
    apply IH. exact (reachable_step s0 sys sys1 Hr (act_step env sys sys1 a E)).
Qed.

Lemma final_handlers_idle (l : list handler) :
  Forall handler_ok l ->
  Forall has_returned l ->
  count_handlers in_body l = 0 /\ count_handlers counted l = 0.
Proof.
  induction 1 as [|hd l (ph & Hph & Hf) _ IH]; intros Hret; cbn; [auto|].
  inversion Hret as [|? ? [r Hr] Hl]; subst.
  destruct (IH Hl) as [-> ->].
  destruct (in_phase_flags hd ph Hph) as (-> & -> & _).
  rewrite Hr in Hf. cbn in Hf. destruct Hf as [-> | ->]; cbn; auto.
Qed.

(** X14: no slot and no count is ever leaked: in any state the system
    can reach, if every handler started so far has returned, the slot
    channel is empty and the counter is 0. *)
Theorem idle_server_is_empty (s0 : Server) (sys : system) :
  unused s0 ->
  reachable s0 sys ->
  Forall has_returned (handlers sys) ->
  chan_len (sema (server sys)) = 0 /\ ConnCount (server sys) = 0.
Proof.
  intros Hun Hreach Hret.
  destruct (reachable_consistent s0 sys Hun Hreach) as (Hok & _ & Hlen & _ & Hcnt).
  destruct (final_handlers_idle _ Hok Hret) as [Hb Hc].
  rewrite Hlen, Hcnt, Hb, Hc. split; reflexivity.
Qed.

Lemma count_handlers_le_length (f : handler -> bool) (l : list handler) :
  count_handlers f l <= Z.of_nat (length l).
Proof.
  induction l as [|hd l IH]; cbn [count_handlers length]; [lia|].
  destruct (f hd); lia.
Qed.

(** X15: as long as fewer than 2^63 handlers were started, the counter
    that [GetConnCount] loads is exactly the number of handlers that have
    incremented it and not yet decremented it; so it is never negative
    and never more than the number of handlers started. *)
Theorem ConnCount_is_a_count (s0 : Server) (sys : system) :
  unused s0 ->
  reachable s0 sys ->
  Z.of_nat (length (handlers sys)) < 2 ^ 63 ->
  ConnCount (server sys) = count_handlers counted (handlers sys)
  /\ 0 <= ConnCount (server sys) <= Z.of_nat (length (handlers sys)).
Proof.
  intros Hun Hreach Hn.
  destruct (reachable_consistent s0 sys Hun Hreach) as (_ & _ & _ & _ & Hcnt).
  pose proof (count_handlers_nonneg counted (handlers sys)).
  pose proof (count_handlers_le_length counted (handlers sys)).
  rewrite Hcnt, wrap64_small by lia. lia.
Qed.

Lemma idle_server_is_empty_witness :
  chan_len (sema (server (after (scripted broken_client) (server_with 2 0) one_handler))) = 0
  /\ ConnCount (server (after (scripted broken_client) (server_with 2 0) one_handler)) = 0.
Proof.
  apply (idle_server_is_empty (server_with 2 0)).
  - repeat split; simpl; lia.
  - apply (schedule_reachable (scripted broken_client) (server_with 2 0) one_handler
             (start (server_with 2 0))); [apply reachable_start|reflexivity].
  - vm_compute. repeat constructor. eexists. reflexivity.
Defined.

Lemma ConnCount_is_a_count_witness :
  ConnCount (server (after (scripted broken_client) (server_with 1 0) overtaking))
  = count_handlers counted
      (handlers (after (scripted broken_client) (server_with 1 0) overtaking))
  /\ 0 <= ConnCount (server (after (scripted broken_client) (server_with 1 0) overtaking))
     <= Z.of_nat
          (length (handlers (after (scripted broken_client) (server_with 1 0) overtaking))).
Proof.
  apply (ConnCount_is_a_count (server_with 1 0)).
  - repeat split; simpl; lia.
  - apply (schedule_reachable (scripted broken_client) (server_with 1 0) overtaking
             (start (server_with 1 0))); [apply reachable_start|reflexivity].
  - vm_compute. reflexivity.
Defined.

(** X16: the counter is not bounded by ConnLimit. On the server [New]
    makes of a Config with ConnLimit 1, a handler that has given its slot
    back but not yet decremented the counter is still counted when the
    next handler is admitted and counted: the system reaches a state with
    one handler in its body, a pool of one slot, and the counter at 2. *)
Theorem ConnCount_can_exceed_ConnLimit :
  (New example_GetCode (Some 1%positive) {[ 1%positive := one_slot_Config ]}).1
    = Back (server_with 1 0, None)
  /\ exists sys,
       reachable (server_with 1 0) sys
       /\ chan_cap (sema (server sys)) = 1
       /\ count_handlers in_body (handlers sys) = 1
       /\ ConnCount (server sys) = 2.
Proof.
  split; [reflexivity|].
  exists (after (scripted broken_client) (server_with 1 0) overtaking). split.
  - apply (schedule_reachable (scripted broken_client) (server_with 1 0) overtaking
             (start (server_with 1 0))); [apply reachable_start|reflexivity].
  - vm_compute. repeat split.
Qed.

(** A handler that stands at its release. *)
Lemma handlers_never_block_witness :
  is_Some (exec_sync sema_Recv
             (server (after (scripted broken_client) (server_with 2 0)
                        (take 7 one_handler)))).
Proof.
  eapply (handlers_never_block (server_with 2 0)
            (after (scripted broken_client) (server_with 2 0) (take 7 one_handler))
            0%nat _ unit sema_Recv _).
  - repeat split; simpl; lia.
  - apply (schedule_reachable (scripted broken_client) (server_with 2 0)
             (take 7 one_handler) (start (server_with 2 0)));
      [apply reachable_start|reflexivity].
  - lazy. reflexivity.
Defined.

(** ** More on Serve and ListenAndServe *)

Lemma Serve_loop_trace (env : oracle) :
  calm env ->
  forall n s h,
    exists tr,
      run env (Serve_loop n []) s h = Some (Next tt, [], s, h ++ tr) /\ Serve_trace tr.
Proof.
  intros [Hacc Hdl]. induction n as [|n IH]; intros s h.
  - exists []. cbn. rewrite app_nil_r. split; [reflexivity|constructor].
  - cbn [Serve_loop]. unfold fbind at 1. rewrite run_pbind.
    unfold Serve_iteration. cbn.
    destruct (Hacc h) as [[conn|err] Ea]; rewrite Ea; cbn.
    + match goal with |- context [env _ ?tr (conn_SetDeadline ?c ?t)] =>
        destruct (Hdl tr c t) as [d Ed]; rewrite Ed end.
      cbn.
      match goal with |- context [run env (Serve_loop n []) s ?h'] =>
        destruct (IH s h') as (tr & -> & Htr) end.
      eexists (_ :: _ :: _ :: _ :: _ :: tr).
      split; [rewrite <- !app_assoc; reflexivity|]. constructor. exact Htr.
    + match goal with |- context [run env (Serve_loop n []) s ?h'] =>
        destruct (IH s h') as (tr & -> & Htr) end.
      eexists (_ :: _ :: tr).
      split; [rewrite <- !app_assoc; reflexivity|]. constructor. exact Htr.
Qed.

(** X17: as long as no call panics, the trace of the accept loop is a
    sequence of passes of two kinds only. A failed accept is followed by
    its log line and nothing else. An accepted connection gets its
    deadline set to the current time plus the connect timeout read from
    the Config at that moment, and then its handler is started, whether
    [SetDeadline] returned an error or not. *)
Theorem Serve_passes (env : oracle) (s : Server) (n : nat) :
  calm env ->
  exists tr,
    run env (Serve_loop n []) s [] = Some (Next tt, [], s, tr) /\ Serve_trace tr.
Proof.
  intros Hcalm. exact (Serve_loop_trace env Hcalm n s []).
Qed.

Lemma Serve_passes_witness :
  exists tr,
    run (scripted (client_script 5 (Back (Ok example_Request))))
        (Serve_loop 2 []) (server_with 2 0) []
    = Some (Next tt, [], server_with 2 0, tr)
    /\ Serve_trace tr.
Proof.
  apply Serve_passes.
  split; intros; eexists; reflexivity.
Defined.

(** X18: [Serve] has no panic boundary of its own: a panic of [Accept]
    leaves the loop at once, with no log line, and goes on into the
    caller of [Serve]. *)
Theorem Serve_propagates_panic (env : oracle) (s : Server) (n : nat) (v : panic_value) :
  env _ [] l_Accept = Panics v ->
  run env (Serve_loop (S n) []) s [] = Some (Panic v, [], s, [EvAccept (Panics v)]).
Proof.
  intros Hv. cbn [Serve_loop]. unfold fbind at 1. rewrite run_pbind.
  unfold Serve_iteration. cbn. rewrite Hv. reflexivity.
Qed.

Lemma Serve_propagates_panic_witness :
  run (scripted {| on_ConnCountChan := false;
                   on_Close := Back None;
                   on_Read := Back ([5], None);
                   on_authenticate := Back (Ok example_AuthContext);
                   on_NewRequest := Back (Ok example_Request);
                   on_sendReply := Back None;
                   on_handleRequest := Back None;
                   on_Accept := Panics (PanicValue "listener") |})
      (Serve_loop 3 []) (server_with 2 0) []
  = Some (Panic (PanicValue "listener"), [], server_with 2 0,
          [EvAccept (Panics (PanicValue "listener"))]).
Proof.
  apply Serve_propagates_panic. reflexivity.
Defined.

(** X19: when [net.Listen] fails, [ListenAndServe] returns at once: it
    accepts nothing, logs nothing and gives the error to nobody. When
    [net.Listen] succeeds and no call panics, [ListenAndServe] is still
    in the accept loop after any number of passes. *)
Theorem ListenAndServe_outcomes (env : oracle) (s : Server) (n : nat) :
  calm env ->
  (forall err,
     run env (ListenAndServe_passes (Back (Err err)) n []) s []
     = Some (Return None, [], s, []))
  /\ (forall l,
        still_looping (run env (ListenAndServe_passes (Back (Ok l)) n []) s [])).
Proof.
  intros Hcalm. split.
  - intros err. reflexivity.
  - intros l. cbn.
    destruct (Serve_loop_trace env Hcalm n s []) as (tr & -> & _). exact I.
Qed.

Lemma ListenAndServe_outcomes_witness :
  (forall err,
     run (scripted closed_listener) (ListenAndServe_passes (Back (Err err)) 3 [])
         (server_with 2 0) []
     = Some (Return None, [], server_with 2 0, []))
  /\ (forall l,
        still_looping
          (run (scripted closed_listener) (ListenAndServe_passes (Back (Ok l)) 3 [])
               (server_with 2 0) [])).
Proof.
  apply ListenAndServe_outcomes.
  split; intros; eexists; reflexivity.
Defined.
